(** * color-extractor: batch frame extraction, JPEG demultiplexing and
      dominant-colour selection

    A shallow embedding of the TypeScript sources

    - [ColorUtil]   (utils/color.util.ts): [extractDominantColor], [rgbToHex];
    - [FfmpegUtil]  (utils/ffmpeg.util.ts and the batch methods listed in
      README_OPTIMIZATION.md): [extractFrame], [extractMultipleFrames],
      [parseJpegFrames]; [SelectFilter] is the select filter of the batch
      command in double precision, [Runtime] the singleton branch of
      [extractMultipleFrames] on the [extractFrame] of ffmpeg.util.ts;
    - [VideoProcessorRepository] (video-processor.repository.ts as listed in
      README_OPTIMIZATION.md): [extractColorsFromFrames].

    Modelling conventions.
    - A [Buffer] is a list of bytes; [buffer[i]] is [nth_error], so a read
      outside the buffer is [None] (JavaScript [undefined]).
    - A thrown [Error] / rejected promise is [Err msg], carrying the message.
    - JavaScript numbers: colour channels are exact rationals ([Q]); in the
      repository and service methods timestamps are integer milliseconds
      ([Z]).  Where the double-precision arithmetic of the code decides what
      is computed (the window bounds of the select filter, the duration in
      milliseconds) numbers are IEEE 754 binary64 values ([JSNumber]).
    - The external collaborators (URL validation and resolution, the scratch
      directory, the ffmpeg process, node-vibrant, measured durations) are the
      fields of [Env].
    - Every ffmpeg process the code starts is recorded in a trace of
      [decoder_call]s, threaded by the monad [M]. *)

From Stdlib Require Import ZArith QArith Qround Qabs List String Ascii Bool Lia Permutation Sorted.
From Stdlib Require Import Strings.Byte.
From Stdlib Require PrimFloat SpecFloat FloatOps.
Import ListNotations.

Local Open Scope string_scope.
Local Open Scope Z_scope.

(* ================================================================== *)
(** ** Results and the trace monad *)

Inductive result (A : Type) : Type :=
| Ok (a : A)
| Err (message : string).
Arguments Ok {A} a.
Arguments Err {A} message.

Definition isOk {A} (r : result A) : bool :=
  match r with Ok _ => true | Err _ => false end.

Definition Buffer : Type := list byte.

(** One started ffmpeg process: the single-frame command of [extractFrame]
    (seek + one frame, written to a scratch file), or the [image2pipe]
    command of the batch path. *)
Inductive decoder_call : Type :=
| SeekFrame (input : string) (seekSeconds : Q) (outputOptions : list string)
| ImagePipe (input : string) (outputOptions : list string).

Definition M (A : Type) : Type := (list decoder_call * result A)%type.

Definition ret {A} (a : A) : M A := ([], Ok a).
Definition throw {A} (message : string) : M A := ([], Err message).
Definition bind {A B} (m : M A) (k : A -> M B) : M B :=
  match m with
  | (t, Ok a) => let (t', r) := k a in ((t ++ t')%list, r)
  | (t, Err e) => (t, Err e)
  end.
Definition trace {A} (m : M A) : list decoder_call := fst m.
Definition outcome {A} (m : M A) : result A := snd m.

Notation "x <- m ;; k" := (bind m (fun x => k))
  (at level 61, m at next level, right associativity).
Notation "' p <- m ;; k" := (bind m (fun p => k))
  (at level 61, p pattern, m at next level, right associativity).

(* ================================================================== *)
(** ** JavaScript primitives used by the sources *)

Module JS.

(** [Math.round]: the integer closest to [x], ties towards +infinity. *)
Definition Math_round (x : Q) : Z := Qfloor (x + (1 # 2)).

Definition digit (d : Z) : string :=
  match d with
  | 0 => "0" | 1 => "1" | 2 => "2" | 3 => "3" | 4 => "4"
  | 5 => "5" | 6 => "6" | 7 => "7" | 8 => "8" | 9 => "9"
  | 10 => "a" | 11 => "b" | 12 => "c" | 13 => "d" | 14 => "e"
  | _ => "f"
  end.

(** Digits of a non-negative integer, most significant first. *)
Fixpoint radix_digits (radix : Z) (fuel : nat) (n : Z) : string :=
  match fuel with
  | O => ""
  | S fuel' =>
      if n <? radix then digit n
      else radix_digits radix fuel' (n / radix) ++ digit (n mod radix)
  end.

Definition digits_fuel (n : Z) : nat := S (Z.to_nat (Z.log2 n)).

(** [n.toString(radix)] for an integer [n]. *)
Definition Number_toString (radix : Z) (n : Z) : string :=
  if n <? 0 then "-" ++ radix_digits radix (digits_fuel (- n)) (- n)
  else radix_digits radix (digits_fuel n) n.

Definition upper_ascii (c : ascii) : ascii :=
  let n := nat_of_ascii c in
  if (97 <=? n)%nat && (n <=? 122)%nat then ascii_of_nat (n - 32) else c.

Fixpoint toUpperCase (s : string) : string :=
  match s with
  | EmptyString => EmptyString
  | String c s' => String (upper_ascii c) (toUpperCase s')
  end.

Fixpoint repeat0 (k : nat) : string :=
  match k with O => "" | S k' => "0" ++ repeat0 k' end.

(** [x.toFixed(f)] (ECMAScript Number.prototype.toFixed, finite [x] below
    10^21): sign, then the integer [n] nearest to [|x| * 10^f] (the larger
    one on a tie), left-padded with zeros to [f + 1] digits, with a point
    before the last [f] digits. *)
Definition toFixed (f : nat) (x : Q) : string :=
  let s := if Qle_bool 0 x then "" else "-" in
  let x := Qabs x in
  let n := Qfloor (x * inject_Z (10 ^ Z.of_nat f) + (1 # 2)) in
  let m := Number_toString 10 n in
  if (f =? 0)%nat then s ++ m
  else
    let k := String.length m in
    let m := if (k <=? f)%nat then repeat0 (f + 1 - k) ++ m else m in
    let k := String.length m in
    s ++ substring 0 (k - f) m ++ "." ++ substring (k - f) f m.

(** [parts.join(sep)] on an array of strings. *)
Fixpoint join_from (sep : string) (k : nat) (parts : list string) (R : string) : string :=
  match parts with
  | [] => R
  | p :: rest =>
      let R := if (0 <? k)%nat then R ++ sep else R in
      join_from sep (S k) rest (R ++ p)
  end.
Definition join (sep : string) (parts : list string) : string :=
  join_from sep 0 parts "".

(** An insertion-ordered [Map<number, V>]: [set] on a present key replaces
    the value in place, on a new key appends the entry. *)
Definition Map (V : Type) : Type := list (Z * V).
Definition Map_empty {V} : Map V := [].
Fixpoint Map_set {V} (m : Map V) (k : Z) (v : V) : Map V :=
  match m with
  | [] => [(k, v)]
  | (k', v') :: m' =>
      if k' =? k then (k', v) :: m' else (k', v') :: Map_set m' k v
  end.
Fixpoint Map_get {V} (m : Map V) (k : Z) : option V :=
  match m with
  | [] => None
  | (k', v') :: m' => if k' =? k then Some v' else Map_get m' k
  end.
Definition Map_entries {V} (m : Map V) : list (Z * V) := m.

(** [Promise.all] over already-modelled outcomes: all results in array
    order, or a rejection (the first one in array order). *)
Fixpoint Promise_all {A} (ps : list (result A)) : result (list A) :=
  match ps with
  | [] => Ok []
  | Ok a :: rest =>
      match Promise_all rest with
      | Ok l => Ok (a :: l)
      | Err e => Err e
      end
  | Err e :: _ => Err e
  end.

(** [Array.prototype.sort] with a numeric comparator [(a, b) => key a - key b]:
    a stable ascending sort on [key]. *)
Fixpoint sort_insert {A} (key : A -> Z) (x : A) (l : list A) : list A :=
  match l with
  | [] => [x]
  | y :: l' => if key x <=? key y then x :: y :: l' else y :: sort_insert key x l'
  end.
Definition Array_sort {A} (key : A -> Z) (l : list A) : list A :=
  fold_right (sort_insert key) [] l.

End JS.

(* ================================================================== *)
(** ** JavaScript numbers in double precision

    A JavaScript number is an IEEE 754 binary64 value.  Rocq's primitive
    [float] is that format; its [+], [-], [*] and [/] round to nearest, ties
    to even, as JavaScript's do, and a decimal literal stands for the nearest
    double. *)

Module JSNumber.

Import PrimFloat.
#[local] Set Warnings "-inexact-float".

Definition number : Set := float.

(** The real number a finite double stands for; [None] for NaN and the
    infinities. *)
Definition exact (x : number) : option Q :=
  match FloatOps.Prim2SF x with
  | SpecFloat.S754_zero _ => Some 0%Q
  | SpecFloat.S754_finite s m e =>
      let v := (inject_Z (Z.pos m) * Qpower 2 e)%Q in
      Some (if s then Qopp v else v)
  | SpecFloat.S754_infinity _ => None
  | SpecFloat.S754_nan => None
  end.

Definition thousand : number := 1000%float.
Definition hundredth : number := 0.01%float.

(** [!x] on a number: [+0], [-0] and [NaN] are falsy. *)
Definition falsy (x : number) : bool :=
  (x =? 0)%float || negb (x =? x)%float.

(** [x.toFixed(f)] (ECMAScript Number.prototype.toFixed) in the range where
    it prints a fixed-point numeral: [x] finite and [|x| < 10^21].  The digits
    are those of the exact value of the double ([JS.toFixed]).  Outside that
    range (NaN, an infinity, or a magnitude from 10^21 on, which are printed
    by [Number::toString]) the result is not modelled: [None]. *)
Definition toFixed (f : nat) (x : number) : option string :=
  match exact x with
  | Some q =>
      if Qle_bool (inject_Z (10 ^ 21)) (Qabs q) then None
      else Some (JS.toFixed f q)
  | None => None
  end.

(** The value of [Math.floor]: an integer, or the argument itself when that
    is NaN or an infinity. *)
Inductive floored : Type :=
| Integer (n : Z)
| Unchanged (x : number).

Definition Math_floor (x : number) : floored :=
  match exact x with
  | Some q => Integer (Qfloor q)
  | None => Unchanged x
  end.

End JSNumber.

(* ================================================================== *)
(** ** node-vibrant types (types/node-vibrant.d.ts) *)

Record Swatch : Type := {
  rgb : Q * Q * Q;
  population : Z
}.

Record Palette : Type := {
  Vibrant : option Swatch;
  Muted : option Swatch;
  DarkVibrant : option Swatch;
  DarkMuted : option Swatch;
  LightVibrant : option Swatch;
  LightMuted : option Swatch
}.

(** ** External collaborators *)

Record Env : Type := {
  isValidVideoUrl : string -> bool;            (* FfmpegUtil.isValidVideoUrl *)
  resolveVideoUrl : string -> string;          (* FfmpegUtil.resolveVideoUrl *)
  ensureTempDir : result unit;                 (* access of the scratch directory,
                                                  else mkdir: done, or its rejection *)
  runDecoder : decoder_call -> result Buffer;  (* bytes produced, or error.message *)
  readBackFailure : decoder_call -> option string;
                                               (* message of the error thrown by
                                                  readFileSync or unlink after that
                                                  run, if any *)
  ffmpegElapsed : decoder_call -> Z;           (* measured ffmpegMs of that run *)
  getPalette : Buffer -> result Palette;       (* Vibrant.from(buf).getPalette() *)
  vibrantElapsed : Buffer -> Z                 (* measured vibrantMs *)
}.

(* ================================================================== *)
(** ** ColorUtil (utils/color.util.ts) *)

Module ColorUtil.

(** [a || b] on optional swatches: a present object is truthy. *)
Definition or_else {A} (a b : option A) : option A :=
  match a with Some _ => a | None => b end.

Definition toHex (value : Q) : string :=
  let hex := JS.Number_toString 16 (JS.Math_round value) in
  if (String.length hex =? 1)%nat then "0" ++ hex else hex.

Definition rgbToHex (r g b : Q) : string :=
  JS.toUpperCase ("#" ++ toHex r ++ toHex g ++ toHex b).

Definition vibrantSwatch (palette : Palette) : option Swatch :=
  or_else (Vibrant palette)
    (or_else (Muted palette)
       (or_else (DarkVibrant palette)
          (or_else (DarkMuted palette)
             (or_else (LightVibrant palette) (LightMuted palette))))).

(** The body of the [try] block, given the palette. *)
Definition colorOfPalette (palette : Palette) : result string :=
  match vibrantSwatch palette with
  | None => Err "No color swatch found in palette"
  | Some sw => let '(r, g, b) := rgb sw in Ok (rgbToHex r g b)
  end.

Definition extractDominantColor (E : Env) (imageBuffer : Buffer) : result string :=
  let attempt :=
    match getPalette E imageBuffer with
    | Err e => Err e
    | Ok palette => colorOfPalette palette
    end in
  match attempt with
  | Ok color => Ok color
  | Err message => Err ("Failed to extract color: " ++ message)
  end.

End ColorUtil.

(* ================================================================== *)
(** ** FfmpegUtil (utils/ffmpeg.util.ts) *)

Module FfmpegUtil.

(** *** parseJpegFrames *)

Definition buf_get (buffer : Buffer) (i : nat) : option byte := nth_error buffer i.

(** [buffer.subarray(start, end)] and [buffer.subarray(start)]. *)
Definition subarray (buffer : Buffer) (start stop : nat) : Buffer :=
  firstn (stop - start) (skipn start buffer).
Definition subarray_from (buffer : Buffer) (start : nat) : Buffer :=
  skipn start buffer.

(** [x === 0xNN], false on [undefined]. *)
Definition byte_is (x : option byte) (b : byte) : bool :=
  match x with Some y => Byte.eqb y b | None => false end.

Definition soi_at (buffer : Buffer) (i : nat) : bool :=
  byte_is (buf_get buffer i) xff && byte_is (buf_get buffer (i + 1)) xd8.

Record scan : Type := {
  frames : list Buffer;
  currentFrameStart : nat
}.

(** One iteration of the [for] loop. *)
Definition scan_step (buffer : Buffer) (st : scan) (i : nat) : scan :=
  if soi_at buffer i then
    {| frames :=
         if (currentFrameStart st <? i)%nat && (0 <? currentFrameStart st)%nat
         then (frames st ++ [subarray buffer (currentFrameStart st) i])%list
         else frames st;
       currentFrameStart := i |}
  else st.

(** The values of [i] with [i < buffer.length - 1]. *)
Definition scan_indices (buffer : Buffer) : list nat :=
  seq 0 (List.length buffer - 1).

(** The frames collected before the final [filter]. *)
Definition scanFrames (buffer : Buffer) : list Buffer :=
  let st := fold_left (scan_step buffer) (scan_indices buffer)
              {| frames := []; currentFrameStart := 0%nat |} in
  if (currentFrameStart st <? List.length buffer)%nat
  then (frames st ++ [subarray_from buffer (currentFrameStart st)])%list
  else frames st.

Definition parseJpegFrames (buffer : Buffer) : list Buffer :=
  filter (fun f => (0 <? List.length f)%nat) (scanFrames buffer).

(** *** The select filter of the batch command

    The filter as it labels the batch command in the traces below: for
    integer milliseconds, with [ms / 1000 - 0.01] and [ms / 1000 + 0.01] taken
    as real numbers.  What the double-precision arithmetic of the code prints
    is [SelectFilter] below. *)

Definition rangeTest (ts : Q) : string :=
  "(gte(t\," ++ JS.toFixed 3 (ts - (1 # 100))%Q
    ++ ")*lte(t\," ++ JS.toFixed 3 (ts + (1 # 100))%Q ++ "))".

Definition selectExpression (timestampsMs : list Z) : string :=
  let timestampsSeconds := map (fun ms => (inject_Z ms / 1000)%Q) timestampsMs in
  JS.join "+" (map rangeTest timestampsSeconds).

Definition batchOutputOptions (selectExpr : string) : list string :=
  [ "-vf"; "select='" ++ selectExpr ++ "',scale=64:-1";
    "-vsync"; " 0"; "-vcodec"; "mjpeg"; "-q:v"; "5" ].

(** *** extractFrame *)

Definition invalidUrlSingle : string :=
  "Invalid video URL. Please provide either a direct link to a video file (e.g., .mp4, .avi, .mov) or a Pexels video page URL (e.g., https://www.pexels.com/video/...)".
Definition invalidUrlBatch : string :=
  "Invalid video URL. Please provide a direct link to a video file (e.g., .mp4, .avi, .mov). Webpage URLs are not supported.".
Definition ffmpegHint : string :=
  ". Make sure FFmpeg is installed and the video URL is accessible.".

Definition singleOutputOptions : list string :=
  [ "-vf"; "scale=200:-1"; "-q:v"; "2" ].

(** The ffmpeg process [extractFrame] starts for a timestamp. *)
Definition seekCall (E : Env) (videoUrl : string) (timestampMs : Z) : decoder_call :=
  SeekFrame (resolveVideoUrl E videoUrl) (inject_Z timestampMs / 1000)%Q
    singleOutputOptions.

(** [extractFrame] resolves the bare [Buffer] read back from the scratch file.
    The scratch directory is prepared before the command is built, so a
    rejected [ensureTempDir] starts no process.  The decoder's outcome is the
    content of the file it wrote (the [end] event) or the message of its
    [error] event; after [end], reading the file back and unlinking it can
    still fail.  The clean-up in the [error] handler is taken to succeed. *)
Definition extractFrame (E : Env) (videoUrl : string) (timestampMs : Z)
  : M Buffer :=
  if negb (isValidVideoUrl E videoUrl) then throw invalidUrlSingle
  else
    let resolvedUrl := resolveVideoUrl E videoUrl in
    match ensureTempDir E with
    | Err message => throw message
    | Ok _ =>
        let timestampSeconds := (inject_Z timestampMs / 1000)%Q in
        let call := SeekFrame resolvedUrl timestampSeconds singleOutputOptions in
        ([call],
         match runDecoder E call with
         | Ok written =>
             match readBackFailure E call with
             | None => Ok written
             | Some message => Err ("Failed to read extracted frame: " ++ message)
             end
         | Err message => Err ("FFmpeg extraction failed: " ++ message ++ ffmpegHint)
         end)
    end.

(** *** extractMultipleFrames *)

(** One iteration of the loop that fills [frameMap]. *)
Definition frameMap_step (timestampsMs : list Z) (frames : list Buffer)
    (frameMap : JS.Map Buffer) (i : nat) : JS.Map Buffer :=
  if (i <? List.length frames)%nat then
    match nth_error timestampsMs i, nth_error frames i with
    | Some t, Some f => JS.Map_set frameMap t f
    | _, _ => frameMap
    end
  else frameMap.

Definition buildFrameMap (timestampsMs : list Z) (frames : list Buffer)
  : JS.Map Buffer :=
  fold_left (frameMap_step timestampsMs frames)
    (seq 0 (List.length timestampsMs)) JS.Map_empty.

Definition batchCall (videoUrl : string) (timestampsMs : list Z) : decoder_call :=
  ImagePipe videoUrl (batchOutputOptions (selectExpression timestampsMs)).

(** The decoder's outcome is the concatenation of the chunks received on the
    pipe when the stream ends, or the message of its error event.

    The singleton branch destructures [{ frameBuffer, ffmpegMs }] from what
    [extractFrame] resolves.  It is read here as it is written, for a helper
    that resolves that object: the frame, with a measured duration taken from
    the environment.  [extractFrame] as it is in ffmpeg.util.ts resolves a
    bare [Buffer]; what the branch then stores is
    [Runtime.extractMultipleFrames] below. *)
Definition extractMultipleFrames (E : Env) (videoUrl : string)
    (timestampsMs : list Z) : M (JS.Map Buffer * Z) :=
  if negb (isValidVideoUrl E videoUrl) then throw invalidUrlBatch
  else
    match timestampsMs with
    | [] => throw "No timestamps provided"
    | [t0] =>
        frameBuffer <- extractFrame E videoUrl t0 ;;
        let ffmpegMs := ffmpegElapsed E (seekCall E videoUrl t0) in
        ret (JS.Map_set JS.Map_empty t0 frameBuffer, ffmpegMs)
    | _ =>
        let call := batchCall videoUrl timestampsMs in
        ([call],
         match runDecoder E call with
         | Err message =>
             Err ("FFmpeg batch extraction failed: " ++ message ++ ffmpegHint)
         | Ok stream =>
             let frames := parseJpegFrames stream in
             if (List.length frames =? 0)%nat then Err "FFmpeg returned no frames"
             else Ok (buildFrameMap timestampsMs frames, ffmpegElapsed E call)
         end)
    end.

End FfmpegUtil.

(* ================================================================== *)
(** ** VideoProcessorRepository (video-processor.repository.ts) *)

Record ColorResult : Type := {
  timestamp : Z;
  color : string;
  ffmpegMs : Z;
  vibrantMs : Z
}.

Module VideoProcessorRepository.

Definition lift {A} (r : result A) : M A := ([], r).

(** The callback mapped over [frames.entries()].  It destructures
    [{ color, vibrantMs }] from what [extractDominantColor] resolves and is
    read here as it is written, for a helper that resolves that object: the
    colour, with a measured duration taken from the environment.
    ([ColorUtil.extractDominantColor] as it is in color.util.ts resolves the
    bare colour string.) *)
Definition colorOfEntry (E : Env) (ffmpegMs : Z) (entry : Z * Buffer)
  : result ColorResult :=
  let '(timestamp, frameBuffer) := entry in
  match ColorUtil.extractDominantColor E frameBuffer with
  | Ok color =>
      Ok {| timestamp := timestamp; color := color; ffmpegMs := ffmpegMs;
            vibrantMs := vibrantElapsed E frameBuffer |}
  | Err e => Err e
  end.

Definition extractColorsFromFrames (E : Env) (videoUrl : string)
    (timestampsMs : list Z) : M (list ColorResult) :=
  '(frames, ffmpegMs) <- FfmpegUtil.extractMultipleFrames E videoUrl timestampsMs ;;
  let colorPromises := map (colorOfEntry E ffmpegMs) (JS.Map_entries frames) in
  results <- lift (JS.Promise_all colorPromises) ;;
  ret (JS.Array_sort timestamp results).

End VideoProcessorRepository.

(* ================================================================== *)
(** ** Specification-side vocabulary *)

(** The six palette categories in the priority order of the specification. *)
Inductive Category : Type :=
| CVibrant | CMuted | CDarkVibrant | CDarkMuted | CLightVibrant | CLightMuted.

Definition priority : list Category :=
  [CVibrant; CMuted; CDarkVibrant; CDarkMuted; CLightVibrant; CLightMuted].

Definition swatchOf (p : Palette) (c : Category) : option Swatch :=
  match c with
  | CVibrant => Vibrant p
  | CMuted => Muted p
  | CDarkVibrant => DarkVibrant p
  | CDarkMuted => DarkMuted p
  | CLightVibrant => LightVibrant p
  | CLightMuted => LightMuted p
  end.

(** The first present swatch along a list of categories. *)
Fixpoint firstPresent (p : Palette) (cs : list Category) : option Swatch :=
  match cs with
  | [] => None
  | c :: cs' =>
      match swatchOf p c with
      | Some sw => Some sw
      | None => firstPresent p cs'
      end
  end.

(** Two upper-case hexadecimal digits of a channel value in 0..255. *)
Definition upperDigit (d : Z) : ascii :=
  match d with
  | 0 => "0" | 1 => "1" | 2 => "2" | 3 => "3" | 4 => "4"
  | 5 => "5" | 6 => "6" | 7 => "7" | 8 => "8" | 9 => "9"
  | 10 => "A" | 11 => "B" | 12 => "C" | 13 => "D" | 14 => "E"
  | _ => "F"
  end%char.

Definition twoHex (n : Z) : string :=
  String (upperDigit (n / 16)) (String (upperDigit (n mod 16)) "").

Definition isUpperHexDigit (c : ascii) : bool :=
  let n := nat_of_ascii c in
  ((48 <=? n)%nat && (n <=? 57)%nat) || ((65 <=? n)%nat && (n <=? 70)%nat).

Fixpoint allChars (P : ascii -> bool) (s : string) : bool :=
  match s with
  | EmptyString => true
  | String c s' => P c && allChars P s'
  end.


(** A JPEG-like frame: the SOI marker first and nowhere else. *)
Definition startsWithSOI (f : Buffer) : Prop :=
  exists rest, f = xff :: xd8 :: rest.

Definition hasSOI (buffer : Buffer) : Prop :=
  exists i, FfmpegUtil.soi_at buffer i = true.

Definition soiOnlyAtStart (f : Buffer) : Prop :=
  startsWithSOI f /\
  forall i, FfmpegUtil.soi_at f i = true -> i = 0%nat.

Definition noSwatchMessage : string :=
  "Failed to extract color: No color swatch found in palette".

Definition noFramesMessage : string := "FFmpeg returned no frames".

(** The zero-padded lower-case rendering of [ColorUtil.toHex], on the rounded
    channel. *)
Definition toHexZ (n : Z) : string :=
  let hex := JS.Number_toString 16 n in
  if (String.length hex =? 1)%nat then "0" ++ hex else hex.

(** *** The loop of parseJpegFrames *)

Definition scan_init : FfmpegUtil.scan :=
  {| FfmpegUtil.frames := []; FfmpegUtil.currentFrameStart := 0%nat |}.

(** What holds of the loop state before iteration [i]: the current frame
    start is 0 or an SOI position below [i], every pushed frame starts with
    the marker, and once a marker has been seen the current frame start is a
    marker position. *)
Definition scan_inv (b : Buffer) (i : nat) (st : FfmpegUtil.scan) : Prop :=
  (FfmpegUtil.currentFrameStart st = 0%nat \/
   FfmpegUtil.soi_at b (FfmpegUtil.currentFrameStart st) = true) /\
  (FfmpegUtil.currentFrameStart st = 0%nat \/
   (FfmpegUtil.currentFrameStart st < i)%nat) /\
  Forall startsWithSOI (FfmpegUtil.frames st) /\
  (forall j, (j < i)%nat -> FfmpegUtil.soi_at b j = true ->
             FfmpegUtil.soi_at b (FfmpegUtil.currentFrameStart st) = true).

(** The last step of [scanFrames], on a given loop state. *)
Definition finish (b : Buffer) (st : FfmpegUtil.scan) : list Buffer :=
  if (FfmpegUtil.currentFrameStart st <? List.length b)%nat
  then (FfmpegUtil.frames st
          ++ [FfmpegUtil.subarray_from b (FfmpegUtil.currentFrameStart st)])%list
  else FfmpegUtil.frames st.

(** *** The frame map *)

(** The map obtained by [set]ting the pairs of a list, in order. *)
Definition Map_of_pairs {V} (l : list (Z * V)) (m : JS.Map V) : JS.Map V :=
  fold_left (fun m p => JS.Map_set m (fst p) (snd p)) l m.

(** The value of the last pair with key [k], [init] when there is none. *)
Definition lastValue {V} (l : list (Z * V)) (k : Z) (init : option V) : option V :=
  fold_left (fun acc p => if fst p =? k then Some (snd p) else acc) l init.

Definition keyLe {A} (key : A -> Z) (a b : A) : Prop := key a <= key b.

(** *** The select expression *)


Definition isDecimalDigit (c : ascii) : bool :=
  let n := nat_of_ascii c in (48 <=? n)%nat && (n <=? 57)%nat.

Definition digitValue (c : ascii) : Z := Z.of_nat (nat_of_ascii c) - 48.

(** The number written by a string of decimal digits. *)
Fixpoint valueFrom (acc : Z) (s : string) : Z :=
  match s with
  | EmptyString => acc
  | String c s' => valueFrom (acc * 10 + digitValue c) s'
  end.
Definition decimalValue (s : string) : Z := valueFrom 0 s.


(* ================================================================== *)
(** ** Concrete environments used in the examples *)

(** A five-byte frame: SOI, one payload byte, EOI. *)
Definition jpeg (payload : byte) : Buffer := [xff; xd8; payload; xff; xd9].

(** A palette with a single Vibrant swatch whose red channel is the payload
    byte of the frame, so that different frames give different colours. *)
Definition demoPalette (buf : Buffer) : Palette :=
  {| Vibrant := Some {| rgb := (inject_Z (Z.of_N (Byte.to_N (nth 2 buf x00))), 0%Q, 0%Q);
                        population := 1 |};
     Muted := None; DarkVibrant := None; DarkMuted := None;
     LightVibrant := None; LightMuted := None |}.

(** Every URL is accepted, the decoder always delivers [stream]. *)
Definition demoEnv (stream : Buffer) : Env :=
  {| isValidVideoUrl := fun _ => true;
     resolveVideoUrl := fun u => u;
     ensureTempDir := Ok tt;
     runDecoder := fun _ => Ok stream;
     readBackFailure := fun _ => None;
     ffmpegElapsed := fun _ => 0;
     getPalette := fun buf => Ok (demoPalette buf);
     vibrantElapsed := fun _ => 0 |}.

Definition demoUrl : string := "https://example.com/video.mp4".

(** A palette holding only the Muted and LightVibrant swatches. *)
Definition mutedSwatch : Swatch := {| rgb := (10, 20, 30)%Q; population := 5 |}.
Definition lightVibrantSwatch : Swatch := {| rgb := (200, 100, 50)%Q; population := 7 |}.
Definition mutedAndLightVibrant : Palette :=
  {| Vibrant := None; Muted := Some mutedSwatch; DarkVibrant := None;
     DarkMuted := None; LightVibrant := Some lightVibrantSwatch; LightMuted := None |}.

(** node-vibrant answers every frame with the palette [p]. *)
Definition paletteEnv (p : Palette) : Env :=
  {| isValidVideoUrl := fun _ => true;
     resolveVideoUrl := fun u => u;
     ensureTempDir := Ok tt;
     runDecoder := fun _ => Ok [];
     readBackFailure := fun _ => None;
     ffmpegElapsed := fun _ => 0;
     getPalette := fun _ => Ok p;
     vibrantElapsed := fun _ => 0 |}.

(** Streams of three and of four five-byte frames. *)
Definition stream3 : Buffer := (jpeg x11 ++ jpeg x22 ++ jpeg x33)%list.
Definition stream4 : Buffer := (jpeg x11 ++ jpeg x22 ++ jpeg x33 ++ jpeg x44)%list.

Definition mkResult (t : Z) (c : string) : ColorResult :=
  {| timestamp := t; color := c; ffmpegMs := 0; vibrantMs := 0 |}.

(* ================================================================== *)
(** ** String primitives used by the URL and history code

    Strings are sequences of ASCII characters; [toLowerCase] folds the
    letters A-Z only. *)

Module JSString.

Definition lower_ascii (c : ascii) : ascii :=
  let n := nat_of_ascii c in
  if (65 <=? n)%nat && (n <=? 90)%nat then ascii_of_nat (n + 32) else c.

Fixpoint toLowerCase (s : string) : string :=
  match s with
  | EmptyString => EmptyString
  | String c s' => String (lower_ascii c) (toLowerCase s')
  end.

(** [s.includes(sub)]. *)
Fixpoint includes (sub s : string) : bool :=
  if prefix sub s then true
  else match s with
       | EmptyString => false
       | String _ s' => includes sub s'
       end.

Fixpoint drop (n : nat) (s : string) : string :=
  match n, s with
  | O, _ => s
  | S n', EmptyString => EmptyString
  | S n', String _ s' => drop n' s'
  end.

Definition endsWith (suffix s : string) : bool :=
  (String.length suffix <=? String.length s)%nat &&
  String.eqb (drop (String.length s - String.length suffix) s) suffix.

(** An insertion-ordered [Map<string, V>]. *)
Definition Map (V : Type) : Type := list (string * V).
Fixpoint Map_set {V} (m : Map V) (k : string) (v : V) : Map V :=
  match m with
  | [] => [(k, v)]
  | (k', v') :: m' =>
      if String.eqb k' k then (k', v) :: m' else (k', v') :: Map_set m' k v
  end.
Definition Map_values {V} (m : Map V) : list V := map snd m.

End JSString.

(* ================================================================== *)
(** ** FfmpegUtil: URL validation, URL resolution, duration probe
       (utils/ffmpeg.util.ts)

    The platform URL parser ([new URL(videoUrl)] does not throw), the HTTP
    client and ffprobe are parameters. *)

Module FfmpegUrl.

Definition videoExtensions : list string :=
  [".mp4"; ".avi"; ".mov"; ".mkv"; ".webm"; ".flv"; ".wmv"; ".m4v"].
Definition trustedDomains : list string :=
  ["s3."; "amazonaws.com"; "cloudfront.net"; "cdn."; "storage.googleapis.com"].
Definition supportedPages : list string := ["pexels.com"].

(** [list.some(x => lowerUrl.includes(x))]. *)
Definition someIncluded (patterns : list string) (lowerUrl : string) : bool :=
  existsb (fun p => JSString.includes p lowerUrl) patterns.

Definition isValidVideoUrl (urlParses : string -> bool) (videoUrl : string) : bool :=
  if negb (urlParses videoUrl) then false
  else
    let lowerUrl := JSString.toLowerCase videoUrl in
    let hasVideoExtension := someIncluded videoExtensions lowerUrl in
    if hasVideoExtension then true
    else
      let isTrustedDomain := someIncluded trustedDomains lowerUrl in
      if isTrustedDomain then true
      else
        let isSupportedPage := someIncluded supportedPages lowerUrl in
        if isSupportedPage && JSString.includes "/video/" lowerUrl then true
        else false.

(** The regular expression of [resolveVideoUrl],
    src=QUOTE(https://cdn.pexels.com/videos/[^QUOTE]+.mp4)QUOTE : at a given
    start the run of characters up to the next quote must end in .mp4 and
    leave at least one character before it; the first start that matches
    wins, and the captured group is returned. *)
Definition dquote : ascii := ascii_of_nat 34.
Definition cdnPrefix : string := "https://cdn.pexels.com/videos/".
Definition srcPrefix : string := "src=" ++ String dquote cdnPrefix.

Fixpoint untilQuote (s : string) : option string :=
  match s with
  | EmptyString => None
  | String c s' =>
      if Ascii.eqb c dquote then Some EmptyString
      else match untilQuote s' with
           | Some run => Some (String c run)
           | None => None
           end
  end.

Definition matchHere (s : string) : option string :=
  if prefix srcPrefix s then
    match untilQuote (JSString.drop (String.length srcPrefix) s) with
    | Some run =>
        if (5 <=? String.length run)%nat && JSString.endsWith ".mp4" run
        then Some (cdnPrefix ++ run)
        else None
    | None => None
    end
  else None.

Fixpoint firstSrcMatch (html : string) : option string :=
  match matchHere html with
  | Some u => Some u
  | None =>
      match html with
      | EmptyString => None
      | String _ html' => firstSrcMatch html'
      end
  end.

Definition isPexelsPage (videoUrl : string) : bool :=
  let lowerUrl := JSString.toLowerCase videoUrl in
  JSString.includes "pexels.com" lowerUrl && JSString.includes "/video/" lowerUrl.

(** The URLs requested over HTTP, and the resolved URL.  A failed request or
    a body that is not a string is [Err]; it is caught and only logged. *)
Definition resolveVideoUrl (httpGet : string -> result string) (videoUrl : string)
  : list string * string :=
  if isPexelsPage videoUrl then
    match httpGet videoUrl with
    | Ok html =>
        match firstSrcMatch html with
        | Some direct => ([videoUrl], direct)
        | None => ([videoUrl], videoUrl)
        end
    | Err _ => ([videoUrl], videoUrl)
    end
  else ([], videoUrl).

(** *** getVideoDuration *)

Definition invalidUrlDuration : string :=
  "Invalid video URL. Please provide either a direct link to a video file (e.g., .mp4, .avi, .mov), an S3/CDN URL, or a Pexels video page URL (e.g., https://www.pexels.com/video/...)".
Definition notFoundMessage : string :=
  "Video file not found (404). The video file does not exist at the provided URL. Please verify the URL is correct and the file exists.".
Definition accessDeniedMessage : string :=
  "Access denied to video URL (403/401). The file exists but requires authentication or is not publicly accessible. Please ensure you have the proper access rights or use a publicly accessible URL.".
Definition cannotConnectMessage : string :=
  "Cannot connect to video URL. The server is unreachable or the connection timed out. Please verify the URL is accessible and check your network connection.".
Definition invalidFormatMessage : string :=
  "Invalid video format or corrupted file. The URL points to a file that is not a valid video. Please ensure the URL is a direct link to a valid video file (e.g., .mp4, .avi, .mov).".
Definition notAccessibleMessage : string :=
  "Video URL is not accessible or does not exist. Please verify the URL is correct, publicly accessible, and points to a valid video file.".
Definition moovMessage : string :=
  "Invalid MP4 file or corrupted video. The video file is missing critical metadata (MOOV atom). This usually means: (1) the file is corrupted, (2) the file was not fully uploaded, or (3) the file structure is incompatible with streaming. Try downloading and re-encoding the video locally, or ensure the file is fully uploaded and valid.".
Definition unableMessage : string :=
  "Unable to access video URL. This could be due to network issues, redirects, or CORS restrictions. Please ensure the URL is a direct link to a publicly accessible video file.".
Definition noDurationMessage : string :=
  "Could not determine video duration from the file".

(** The message chosen for an ffprobe error. *)
Definition probeErrorMessage (message : string) : string :=
  let errMsg := JSString.toLowerCase message in
  let has := fun w => JSString.includes w errMsg in
  if has "404" || has "not found" then notFoundMessage
  else if has "403" || has "forbidden" || has "unauthorized" then accessDeniedMessage
  else if has "connection" || has "timeout" || has "econnrefused" then cannotConnectMessage
  else if has "invalid" && (has "format" || has "stream") then invalidFormatMessage
  else if has "no such file" || has "does not exist" then notAccessibleMessage
  else if has "moov atom not found" || has "invalid data found" then moovMessage
  else if has "protocol" || has "unknown" then unableMessage
  else "Failed to process video: " ++ message.

(** [ffprobe] answers with an error message or with [metadata.format.duration]
    (absent, or a number of seconds).  The product [durationSeconds * 1000] is
    the double-precision product, and the result is its [Math.floor].  The
    HTTP requests of the resolution step are returned with the outcome. *)
Definition getVideoDuration (urlParses : string -> bool)
    (httpGet : string -> result string)
    (ffprobe : string -> result (option JSNumber.number)) (videoUrl : string)
  : list string * result JSNumber.floored :=
  if negb (isValidVideoUrl urlParses videoUrl) then ([], Err invalidUrlDuration)
  else
    let '(requests, resolvedUrl) := resolveVideoUrl httpGet videoUrl in
    (requests,
     match ffprobe resolvedUrl with
     | Err message => Err (probeErrorMessage message)
     | Ok durationSeconds =>
         match durationSeconds with
         | None => Err noDurationMessage
         | Some d =>
             if JSNumber.falsy d then Err noDurationMessage
             else Ok (JSNumber.Math_floor (PrimFloat.mul d JSNumber.thousand))
         end
     end).

End FfmpegUrl.

(* ================================================================== *)
(** ** VideoProcessorRepository: processing history
       (video-processor.repository.ts) *)

Record ProcessingRecord : Type := {
  rec_timestamp : Z;          (* new Date(), as epoch milliseconds *)
  rec_videoUrl : string;
  rec_timestamps : list Z
}.

Definition History : Type := JSString.Map ProcessingRecord.

Module ProcessingHistory.

(** [now] is the value of [Date.now()], [date] that of [new Date()]. *)
Definition recordId (videoUrl : string) (now : Z) : string :=
  videoUrl ++ "_" ++ JS.Number_toString 10 now.

Definition saveProcessingRecord (now date : Z) (videoUrl : string)
    (timestamps : list Z) (processingHistory : History) : History :=
  JSString.Map_set processingHistory (recordId videoUrl now)
    {| rec_timestamp := date; rec_videoUrl := videoUrl;
       rec_timestamps := timestamps |}.

Definition getProcessingHistory (videoUrl : string) (processingHistory : History)
  : list ProcessingRecord :=
  filter (fun record => String.eqb (rec_videoUrl record) videoUrl)
    (JSString.Map_values processingHistory).

Definition clearHistory (processingHistory : History) : History := [].

End ProcessingHistory.

(* ================================================================== *)
(** ** VideoProcessorService (video-processor.service.ts)

    [Legacy] is the per-timestamp service; [Batch] is the service of
    README_OPTIMIZATION.md, which calls [extractColorsFromFrames].  Every
    failure of [extractColors] is a [BadRequestException], modelled by [Err]
    with its message. *)

Record ColorResultDto : Type := {
  dto_timestamp : Z;
  dto_color : string
}.

Record TimingDto : Type := {
  tm_timestamp : Z;
  tm_ffmpegMs : Z;
  tm_vibrantMs : Z;
  tm_totalMs : Z
}.

Record ExtractColorsResponse : Type := {
  resp_videoUrl : string;
  resp_results : list ColorResultDto;
  resp_totalMs : Z;
  resp_perTimestamp : list TimingDto
}.

(** What the service reads from outside: the environment of the utilities,
    the outcome of [repository.getVideoDuration], the two clock readings of
    [saveProcessingRecord] and the measured total duration. *)
Record Services : Type := {
  svc_env : Env;
  svc_getVideoDuration : string -> result Z;
  svc_now : Z;
  svc_date : Z;
  svc_totalMs : Z
}.

(** The response of the per-timestamp service. *)
Record LegacyResponse : Type := {
  legacy_videoUrl : string;
  legacy_results : list ColorResultDto
}.

(** Decoder processes started, outcome, and the history afterwards. *)
Definition ServiceRun (R : Type) : Type :=
  (list decoder_call * result R * History)%type.

Definition runTrace {R} (r : ServiceRun R) : list decoder_call := fst (fst r).
Definition runOutcome {R} (r : ServiceRun R) : result R := snd (fst r).
Definition runHistory {R} (r : ServiceRun R) : History := snd r.

Module VideoProcessorService.

Definition exceedMessage (invalidTimestamps : list Z) (videoDuration : Z) : string :=
  "Timestamps " ++ JS.join ", " (map (JS.Number_toString 10) invalidTimestamps)
    ++ " exceed video duration of " ++ JS.Number_toString 10 videoDuration ++ "ms".

Definition wrapFailure (message : string) : string :=
  "Failed to extract colors: " ++ message.

(** [Promise.all] over computations that have all been started: every trace
    is kept (in array order), the outcome is that of [JS.Promise_all]. *)
Definition all_started {A} (ps : list (M A)) : M (list A) :=
  (List.concat (map fst ps), JS.Promise_all (map snd ps)).

(** *** The per-timestamp service *)

Definition legacyExtractColorFromFrame (E : Env) (videoUrl : string)
    (timestampMs : Z) : M string :=
  frameBuffer <- FfmpegUtil.extractFrame E videoUrl timestampMs ;;
  VideoProcessorRepository.lift (ColorUtil.extractDominantColor E frameBuffer).

Definition processTimestamp (E : Env) (videoUrl : string) (timestamp : Z)
  : M ColorResultDto :=
  match legacyExtractColorFromFrame E videoUrl timestamp with
  | (t, Ok dominantColor) =>
      (t, Ok {| dto_timestamp := timestamp; dto_color := dominantColor |})
  | (t, Err message) =>
      (t, Err ("Failed to process timestamp " ++ JS.Number_toString 10 timestamp
                 ++ "ms: " ++ message))
  end.

Definition legacyExtractColors (S : Services) (videoUrl : string)
    (timestamps : list Z) (history : History) : ServiceRun LegacyResponse :=
  match svc_getVideoDuration S videoUrl with
  | Err message => ([], Err (wrapFailure message), history)
  | Ok videoDuration =>
      let invalidTimestamps := filter (fun ts => videoDuration <? ts) timestamps in
      if (0 <? List.length invalidTimestamps)%nat
      then ([], Err (exceedMessage invalidTimestamps videoDuration), history)
      else
        match all_started (map (processTimestamp (svc_env S) videoUrl) timestamps) with
        | (t, Ok colorResults) =>
            (t,
             Ok {| legacy_videoUrl := videoUrl; legacy_results := colorResults |},
             ProcessingHistory.saveProcessingRecord (svc_now S) (svc_date S)
               videoUrl timestamps history)
        | (t, Err message) => (t, Err (wrapFailure message), history)
        end
  end.

(** *** The batch service *)

Definition resultOf (item : ColorResult) : ColorResultDto :=
  {| dto_timestamp := timestamp item; dto_color := color item |}.

Definition timingOf (item : ColorResult) : TimingDto :=
  {| tm_timestamp := timestamp item; tm_ffmpegMs := ffmpegMs item;
     tm_vibrantMs := vibrantMs item;
     tm_totalMs := ffmpegMs item + vibrantMs item |}.

Definition extractColors (S : Services) (videoUrl : string)
    (timestamps : list Z) (history : History) : ServiceRun ExtractColorsResponse :=
  match svc_getVideoDuration S videoUrl with
  | Err message => ([], Err (wrapFailure message), history)
  | Ok videoDuration =>
      let invalidTimestamps := filter (fun ts => videoDuration <? ts) timestamps in
      if (0 <? List.length invalidTimestamps)%nat
      then ([], Err (exceedMessage invalidTimestamps videoDuration), history)
      else
        match VideoProcessorRepository.extractColorsFromFrames (svc_env S)
                videoUrl timestamps with
        | (t, Ok batchResults) =>
            (t,
             Ok {| resp_videoUrl := videoUrl;
                   resp_results := map resultOf batchResults;
                   resp_totalMs := svc_totalMs S;
                   resp_perTimestamp := map timingOf batchResults |},
             ProcessingHistory.saveProcessingRecord (svc_now S) (svc_date S)
               videoUrl timestamps history)
        | (t, Err message) => (t, Err (wrapFailure message), history)
        end
  end.

End VideoProcessorService.

(** *** Further invariants of the parseJpegFrames loop *)

(** The pushed frames are consecutive slices of the buffer that end at the
    current frame start; nothing is pushed while the frame start is 0. *)
Definition scan_cat_inv (b : Buffer) (i : nat) (st : FfmpegUtil.scan) : Prop :=
  (FfmpegUtil.currentFrameStart st = 0%nat \/
   (FfmpegUtil.currentFrameStart st < i)%nat) /\
  (FfmpegUtil.currentFrameStart st = 0%nat -> FfmpegUtil.frames st = []) /\
  exists s, (s <= FfmpegUtil.currentFrameStart st)%nat /\
            List.concat (FfmpegUtil.frames st)
            = FfmpegUtil.subarray b s (FfmpegUtil.currentFrameStart st).

(** Histories whose keys are the record ids of their records: what
    [saveProcessingRecord] builds from the empty history. *)
Definition wellKeyed (h : History) : Prop :=
  Forall (fun entry =>
            exists now, fst entry
                        = ProcessingHistory.recordId (rec_videoUrl (snd entry)) now) h.

Definition notUnderscore (c : ascii) : bool := negb (Ascii.eqb c "_").

Definition noQuote (c : ascii) : bool := negb (Ascii.eqb c FfmpegUrl.dquote).

(** *** Concrete services and pages used in the examples *)

Definition demoServices (stream : Buffer) (duration : Z) : Services :=
  {| svc_env := demoEnv stream;
     svc_getVideoDuration := fun _ => Ok duration;
     svc_now := 1700000000000;
     svc_date := 1700000000000;
     svc_totalMs := 0 |}.

Definition pexelsPageUrl : string := "https://www.pexels.com/video/waves-1234/".

Definition pexelsPageHtml : string :=
  "<video " ++ FfmpegUrl.srcPrefix ++ "waves-hd.mp4"
    ++ String FfmpegUrl.dquote "></video>".

Definition demoHttpGet (url : string) : result string :=
  if String.eqb url pexelsPageUrl then Ok pexelsPageHtml else Err "ENOTFOUND".

(* ================================================================== *)
(** ** The singleton branch on the [extractFrame] of ffmpeg.util.ts

    README_OPTIMIZATION.md, extractMultipleFrames:
    [const { frameBuffer, ffmpegMs } = await this.extractFrame(...)], then
    [new Map([[timestampsMs[0], frameBuffer]])].  The value destructured is the
    [Buffer] that [FfmpegUtil.extractFrame] resolves. *)

Module Runtime.

(** The JavaScript values that occur here. *)
Inductive value : Type :=
| Undefined
| Num (n : Z)
| Buf (b : Buffer)
| Obj (fields : string -> value).   (* an object literal: its value at each name,
                                       [Undefined] at the names it does not define *)

(** [v.name], for the names [frameBuffer] and [ffmpegMs] of the destructuring
    pattern: an object literal gives its field of that name; a Buffer and a
    number have no property of either name (nor have their prototypes), so the
    read gives [undefined].  (Reading a property of [undefined] itself throws;
    no such read occurs below, where the value read is a Buffer.) *)
Definition get (v : value) (name : string) : value :=
  match v with
  | Obj fields => fields name
  | Undefined | Num _ | Buf _ => Undefined
  end.

(** The object literal [{ frameBuffer, ffmpegMs }]. *)
Definition frameWithDuration (frameBuffer : Buffer) (ffmpegMs : Z) : value :=
  Obj (fun name =>
         if String.eqb name "frameBuffer" then Buf frameBuffer
         else if String.eqb name "ffmpegMs" then Num ffmpegMs
         else Undefined).

Definition extractMultipleFrames (E : Env) (videoUrl : string)
    (timestampsMs : list Z) : M (JS.Map value * value) :=
  if negb (isValidVideoUrl E videoUrl) then throw FfmpegUtil.invalidUrlBatch
  else
    match timestampsMs with
    | [] => throw "No timestamps provided"
    | [t0] =>
        resolved <- FfmpegUtil.extractFrame E videoUrl t0 ;;
        let frameBuffer := get (Buf resolved) "frameBuffer" in
        let ffmpegMs := get (Buf resolved) "ffmpegMs" in
        ret (JS.Map_set JS.Map_empty t0 frameBuffer, ffmpegMs)
    | _ =>
        let call := FfmpegUtil.batchCall videoUrl timestampsMs in
        ([call],
         match runDecoder E call with
         | Err message =>
             Err ("FFmpeg batch extraction failed: " ++ message ++ FfmpegUtil.ffmpegHint)
         | Ok stream =>
             let frames := FfmpegUtil.parseJpegFrames stream in
             if (List.length frames =? 0)%nat then Err "FFmpeg returned no frames"
             else Ok (map (fun entry => (fst entry, Buf (snd entry)))
                        (FfmpegUtil.buildFrameMap timestampsMs frames),
                      Num (ffmpegElapsed E call))
         end)
    end.

End Runtime.

(* ================================================================== *)
(** ** The select filter in double precision
       (README_OPTIMIZATION.md, extractMultipleFrames)

    [timestampsMs] is a [number[]]: any doubles, fractional milliseconds
    included.  [ms / 1000], [ts - 0.01] and [ts + 0.01] are double-precision
    operations and [toFixed(3)] prints the exact value of the double it is
    given.  A window bound that [toFixed] does not print as a fixed-point
    numeral (see [JSNumber.toFixed]) makes the expression [None]. *)

Module SelectFilter.

Definition windowStart (ts : JSNumber.number) : JSNumber.number :=
  PrimFloat.sub ts JSNumber.hundredth.
Definition windowEnd (ts : JSNumber.number) : JSNumber.number :=
  PrimFloat.add ts JSNumber.hundredth.

Definition rangeTest (ts : JSNumber.number) : option string :=
  match JSNumber.toFixed 3 (windowStart ts), JSNumber.toFixed 3 (windowEnd ts) with
  | Some lo, Some hi => Some ("(gte(t\," ++ lo ++ ")*lte(t\," ++ hi ++ "))")
  | _, _ => None
  end.

(** All the strings of a [map], when each of them is defined. *)
Fixpoint all_defined {A} (l : list (option A)) : option (list A) :=
  match l with
  | [] => Some []
  | Some a :: rest =>
      match all_defined rest with
      | Some l' => Some (a :: l')
      | None => None
      end
  | None :: _ => None
  end.

Definition toSeconds (ms : JSNumber.number) : JSNumber.number :=
  PrimFloat.div ms JSNumber.thousand.

Definition selectExpression (timestampsMs : list JSNumber.number) : option string :=
  let timestampsSeconds := map toSeconds timestampsMs in
  option_map (JS.join "+") (all_defined (map rangeTest timestampsSeconds)).

(** The argument of [outputOptions], and the command that is run. *)
Definition outputOptions (timestampsMs : list JSNumber.number) : option (list string) :=
  option_map FfmpegUtil.batchOutputOptions (selectExpression timestampsMs).


End SelectFilter.





(** Integers that a double holds exactly and that [Number::toString] prints
    with all their digits. *)
Definition safeInteger (n : Z) : Prop := 0 <= n <= 9007199254740991.

(** Timestamps and a duration used in the examples. *)
Module DemoNumbers.

Import PrimFloat.
#[local] Set Warnings "-inexact-float".

Definition timestampsMs : list JSNumber.number :=
  [1000%float; 2500%float; 33.5%float].
Definition largeMs : JSNumber.number := 9007199254740991%float.
Definition durationSeconds : JSNumber.number := 1.001%float.
Definition otherDurationSeconds : JSNumber.number := 4.35%float.

End DemoNumbers.

(* ================================================================== *)
(** * Properties *)

(** ** The model at work *)

Example toFixed_below_window : JS.toFixed 3 (inject_Z 5 / 1000 - (1 # 100))%Q = "-0.005".
Proof. vm_compute. reflexivity. Qed.

Example toFixed_pads_zeros : JS.toFixed 3 (inject_Z 10 / 1000 - (1 # 100))%Q = "0.000".
Proof. vm_compute. reflexivity. Qed.

Example toFixed_large : JS.toFixed 3 (inject_Z 123456 / 1000 + (1 # 100))%Q = "123.466".
Proof. vm_compute. reflexivity. Qed.

Example selectExpression_two :
  FfmpegUtil.selectExpression [1000; 2500]
  = "(gte(t\,0.990)*lte(t\,1.010))+(gte(t\,2.490)*lte(t\,2.510))".
Proof. vm_compute. reflexivity. Qed.

Example parse_with_leading_byte :
  FfmpegUtil.parseJpegFrames (x00 :: jpeg x11 ++ jpeg x22)%list = [jpeg x11; jpeg x22].
Proof. reflexivity. Qed.

Example parse_three_frames :
  FfmpegUtil.parseJpegFrames stream3 = [jpeg x22; jpeg x33].
Proof. reflexivity. Qed.

Example toHex_pads : ColorUtil.toHex (19 # 2) = "0a".
Proof. vm_compute. reflexivity. Qed.

(** ** Strings *)

Lemma append_assoc (a b c : string) : (a ++ b) ++ c = a ++ (b ++ c).
Proof. induction a as [|x a IH]; simpl; [reflexivity | now rewrite IH]. Qed.

Lemma append_nil_r (a : string) : a ++ "" = a.
Proof. induction a as [|x a IH]; simpl; [reflexivity | now rewrite IH]. Qed.

Lemma length_append (a b : string) :
  String.length (a ++ b) = (String.length a + String.length b)%nat.
Proof. induction a as [|x a IH]; simpl; [reflexivity | now rewrite IH]. Qed.

Lemma toUpperCase_append (a b : string) :
  JS.toUpperCase (a ++ b) = JS.toUpperCase a ++ JS.toUpperCase b.
Proof. induction a as [|x a IH]; simpl; [reflexivity | now rewrite IH]. Qed.

Lemma allChars_append (P : ascii -> bool) (a b : string) :
  allChars P (a ++ b) = allChars P a && allChars P b.
Proof.
  induction a as [|x a IH]; simpl; [reflexivity |].
  now rewrite IH, andb_assoc.
Qed.

(** A boolean property checked on 0..255 holds for every channel value. *)
Lemma byte_range_table (P : Z -> bool) :
  forallb P (map Z.of_nat (seq 0 256)) = true ->
  forall n, 0 <= n <= 255 -> P n = true.
Proof.
  intros Hall n Hn.
  rewrite forallb_forall in Hall. apply Hall.
  apply in_map_iff. exists (Z.to_nat n). split; [lia |].
  apply in_seq. lia.
Qed.

(** ** ColorUtil *)

Lemma or_else_firstPresent (p : Palette) :
  ColorUtil.vibrantSwatch p = firstPresent p priority.
Proof.
  unfold ColorUtil.vibrantSwatch, priority, ColorUtil.or_else. simpl.
  destruct (Vibrant p), (Muted p), (DarkVibrant p), (DarkMuted p),
    (LightVibrant p), (LightMuted p); reflexivity.
Qed.

Lemma firstPresent_None (p : Palette) :
  firstPresent p priority = None <-> forall c, swatchOf p c = None.
Proof.
  split.
  - unfold priority; simpl. intros H c.
    destruct (Vibrant p) eqn:E1; [discriminate |].
    destruct (Muted p) eqn:E2; [discriminate |].
    destruct (DarkVibrant p) eqn:E3; [discriminate |].
    destruct (DarkMuted p) eqn:E4; [discriminate |].
    destruct (LightVibrant p) eqn:E5; [discriminate |].
    destruct (LightMuted p) eqn:E6; [discriminate |].
    destruct c; assumption.
  - intros H. unfold priority, firstPresent.
    rewrite (H CVibrant), (H CMuted), (H CDarkVibrant), (H CDarkMuted),
      (H CLightVibrant), (H CLightMuted). reflexivity.
Qed.

(** C6. Given the palette node-vibrant returns for a frame,
    [extractDominantColor] selects the first present swatch in the order
    Vibrant, Muted, DarkVibrant, DarkMuted, LightVibrant, LightMuted and
    returns its colour; it fails with the no-swatch error exactly when all six
    categories are absent; a palette with only Muted and LightVibrant selects
    Muted. *)
Theorem extractDominantColor_priority :
  forall (E : Env) (buf : Buffer) (p : Palette),
    getPalette E buf = Ok p ->
    ColorUtil.vibrantSwatch p = firstPresent p priority /\
    (forall sw, firstPresent p priority = Some sw ->
       ColorUtil.extractDominantColor E buf =
       Ok (let '(r, g, b) := rgb sw in ColorUtil.rgbToHex r g b)) /\
    (ColorUtil.extractDominantColor E buf = Err noSwatchMessage <->
       forall c, swatchOf p c = None) /\
    (isOk (ColorUtil.extractDominantColor E buf) = false <->
       forall c, swatchOf p c = None) /\
    (forall m lv,
       p = {| Vibrant := None; Muted := Some m; DarkVibrant := None;
              DarkMuted := None; LightVibrant := Some lv; LightMuted := None |} ->
       firstPresent p priority = Some m).
Proof.
  intros E buf p Hp.
  assert (Hsel := or_else_firstPresent p).
  assert (Hrun : ColorUtil.extractDominantColor E buf =
            match firstPresent p priority with
            | Some sw => Ok (let '(r, g, b) := rgb sw in ColorUtil.rgbToHex r g b)
            | None => Err noSwatchMessage
            end).
  { unfold ColorUtil.extractDominantColor, ColorUtil.colorOfPalette.
    rewrite Hp, Hsel.
    destruct (firstPresent p priority) as [sw|]; [| reflexivity].
    destruct (rgb sw) as [[r g] b]. reflexivity. }
  split; [exact Hsel |].
  split.
  { intros sw Hsw. rewrite Hrun, Hsw. reflexivity. }
  split.
  { rewrite Hrun, <- firstPresent_None.
    destruct (firstPresent p priority) as [sw|]; split; intro H;
      try reflexivity; discriminate. }
  split.
  { rewrite Hrun, <- firstPresent_None.
    destruct (firstPresent p priority) as [sw|]; split; intro H;
      try reflexivity; discriminate. }
  intros m lv ->. reflexivity.
Qed.

Lemma extractDominantColor_priority_witness :
  getPalette (paletteEnv mutedAndLightVibrant) (jpeg x00) = Ok mutedAndLightVibrant /\
  ColorUtil.extractDominantColor (paletteEnv mutedAndLightVibrant) (jpeg x00)
  = Ok "#0A141E".
Proof.
  split; [reflexivity |].
  exact (proj1 (proj2 (extractDominantColor_priority
                         (paletteEnv mutedAndLightVibrant) (jpeg x00)
                         mutedAndLightVibrant eq_refl))
           mutedSwatch eq_refl).
Defined.

(** *** rgbToHex *)

Lemma Math_round_nearest (x : Q) :
  (x - (1 # 2) < inject_Z (JS.Math_round x) /\ inject_Z (JS.Math_round x) <= x + (1 # 2))%Q.
Proof.
  unfold JS.Math_round.
  pose proof (Qfloor_le (x + (1 # 2))) as Hle.
  pose proof (Qlt_floor (x + (1 # 2))) as Hlt.
  rewrite inject_Z_plus in Hlt.
  split; [| exact Hle].
  apply Qplus_lt_l with (z := (1 # 2)%Q).
  setoid_replace (x - (1 # 2) + (1 # 2))%Q with x by ring.
  apply Qplus_lt_l with (z := (1 # 2)%Q).
  setoid_replace (inject_Z (Qfloor (x + (1 # 2))) + (1 # 2) + (1 # 2))%Q
    with (inject_Z (Qfloor (x + (1 # 2))) + inject_Z 1)%Q by ring.
  exact Hlt.
Qed.

Lemma Math_round_channel (x : Q) :
  (0 <= x)%Q -> (x <= 255)%Q -> 0 <= JS.Math_round x <= 255.
Proof.
  intros H0 H255. unfold JS.Math_round. split.
  - change 0 with (Qfloor (0 + (1 # 2))).
    apply Qfloor_resp_le. apply Qplus_le_l. exact H0.
  - change 255 with (Qfloor (255 + (1 # 2))).
    apply Qfloor_resp_le. apply Qplus_le_l. exact H255.
Qed.

Lemma toHex_table (n : Z) :
  0 <= n <= 255 ->
  JS.toUpperCase (toHexZ n) = twoHex n /\
  allChars isUpperHexDigit (twoHex n) = true.
Proof.
  intros Hn.
  pose (P := fun n => String.eqb (JS.toUpperCase (toHexZ n)) (twoHex n)
                      && allChars isUpperHexDigit (twoHex n)).
  assert (HP : P n = true).
  { apply byte_range_table; [vm_compute; reflexivity | exact Hn]. }
  unfold P in HP. apply andb_true_iff in HP. destruct HP as [H1 H2].
  apply String.eqb_eq in H1. split; assumption.
Qed.

(** C7. For channels in [0,255], [rgbToHex] rounds each channel to the nearest
    integer and renders '#' followed by the three channels, in the order R, G,
    B, as two upper-case hexadecimal digits each: 7 characters in all. *)
Theorem rgbToHex_format :
  (forall r g b : Q,
     (0 <= r)%Q -> (r <= 255)%Q -> (0 <= g)%Q -> (g <= 255)%Q ->
     (0 <= b)%Q -> (b <= 255)%Q ->
     let R := JS.Math_round r in
     let G := JS.Math_round g in
     let B := JS.Math_round b in
     (r - (1 # 2) < inject_Z R /\ inject_Z R <= r + (1 # 2))%Q /\
     (g - (1 # 2) < inject_Z G /\ inject_Z G <= g + (1 # 2))%Q /\
     (b - (1 # 2) < inject_Z B /\ inject_Z B <= b + (1 # 2))%Q /\
     0 <= R <= 255 /\ 0 <= G <= 255 /\ 0 <= B <= 255 /\
     ColorUtil.rgbToHex r g b = "#" ++ twoHex R ++ twoHex G ++ twoHex B /\
     String.length (ColorUtil.rgbToHex r g b) = 7%nat /\
     allChars isUpperHexDigit (twoHex R ++ twoHex G ++ twoHex B) = true) /\
  ColorUtil.rgbToHex 255 0 128 = "#FF0080" /\
  ColorUtil.rgbToHex 0 0 0 = "#000000" /\
  ColorUtil.rgbToHex 255 255 255 = "#FFFFFF".
Proof.
  split; [| repeat split; vm_compute; reflexivity].
  intros r g b Hr0 Hr1 Hg0 Hg1 Hb0 Hb1 R G B.
  pose proof (Math_round_channel r Hr0 Hr1) as HR.
  pose proof (Math_round_channel g Hg0 Hg1) as HG.
  pose proof (Math_round_channel b Hb0 Hb1) as HB.
  fold R in HR. fold G in HG. fold B in HB.
  destruct (toHex_table R HR) as [ER CR].
  destruct (toHex_table G HG) as [EG CG].
  destruct (toHex_table B HB) as [EB CB].
  assert (Hhex : ColorUtil.rgbToHex r g b = "#" ++ twoHex R ++ twoHex G ++ twoHex B).
  { unfold ColorUtil.rgbToHex.
    change (ColorUtil.toHex r) with (toHexZ R).
    change (ColorUtil.toHex g) with (toHexZ G).
    change (ColorUtil.toHex b) with (toHexZ B).
    rewrite !toUpperCase_append, ER, EG, EB. reflexivity. }
  split; [apply Math_round_nearest |].
  split; [apply Math_round_nearest |].
  split; [apply Math_round_nearest |].
  split; [exact HR |]. split; [exact HG |]. split; [exact HB |].
  split; [exact Hhex |].
  split; [rewrite Hhex; reflexivity |].
  rewrite !allChars_append, CR, CG, CB. reflexivity.
Qed.

Lemma rgbToHex_format_witness :
  ColorUtil.rgbToHex (509 # 2) (1 # 3) 128 = "#" ++ twoHex 255 ++ twoHex 0 ++ twoHex 128.
Proof.
  refine (proj1 (proj2 (proj2 (proj2 (proj2 (proj2 (proj2
    (proj1 rgbToHex_format (509 # 2)%Q (1 # 3)%Q 128%Q _ _ _ _ _ _)))))))).
  all: unfold Qle; simpl; lia.
Defined.

(* ================================================================== *)
(** ** parseJpegFrames *)

Section ParseJpegFrames.

Import FfmpegUtil.

Lemma soi_at_spec (b : Buffer) (i : nat) :
  soi_at b i = true <->
  nth_error b i = Some xff /\ nth_error b (i + 1) = Some xd8.
Proof.
  unfold soi_at, byte_is, buf_get. rewrite andb_true_iff.
  destruct (nth_error b i) as [x|], (nth_error b (i + 1)) as [y|];
    split; intros [H1 H2]; try discriminate.
  - apply Byte.byte_dec_bl in H1, H2. subst. split; reflexivity.
  - injection H1 as ->. injection H2 as ->. split; reflexivity.
Qed.

Lemma soi_at_bound (b : Buffer) (i : nat) :
  soi_at b i = true -> (i + 1 < List.length b)%nat.
Proof.
  intros H. apply soi_at_spec in H. destruct H as [_ H].
  apply nth_error_Some. rewrite H. discriminate.
Qed.

Lemma soi_at_skipn (b : Buffer) (i : nat) :
  soi_at b i = true -> exists rest, skipn i b = xff :: xd8 :: rest.
Proof.
  intros H. apply soi_at_spec in H. destruct H as [H1 H2].
  rewrite <- (Nat.add_0_r i) in H1.
  rewrite <- nth_error_skipn in H1, H2.
  destruct (skipn i b) as [|x [|y rest]]; simpl in H1, H2; try discriminate.
  injection H1 as ->. injection H2 as ->. now exists rest.
Qed.

(** Two distinct SOI positions are at least two bytes apart. *)
Lemma soi_gap (b : Buffer) (i j : nat) :
  soi_at b i = true -> soi_at b j = true -> (i < j)%nat -> (i + 2 <= j)%nat.
Proof.
  intros Hi Hj Hlt.
  apply soi_at_spec in Hi, Hj. destruct Hi as [_ Hi], Hj as [Hj _].
  destruct (Nat.eq_dec j (i + 1)) as [-> | Hne]; [| lia].
  rewrite Hi in Hj. discriminate.
Qed.

Lemma subarray_startsWithSOI (b : Buffer) (s e : nat) :
  soi_at b s = true -> (s + 2 <= e)%nat -> startsWithSOI (subarray b s e).
Proof.
  intros Hs Hle. destruct (soi_at_skipn b s Hs) as [rest Hrest].
  unfold subarray. rewrite Hrest.
  replace (e - s)%nat with (S (S (e - s - 2))) by lia.
  simpl. eexists. reflexivity.
Qed.

Lemma scan_step_inv (b : Buffer) (i : nat) (st : scan) :
  scan_inv b i st -> scan_inv b (S i) (scan_step b st i).
Proof.
  intros (Hsoi & Hlt & Hfr & Hseen). unfold scan_step.
  destruct (soi_at b i) eqn:Hi.
  - repeat split; simpl.
    + right; exact Hi.
    + right; lia.
    + destruct ((currentFrameStart st <? i)%nat && (0 <? currentFrameStart st)%nat)
        eqn:Hc; [| exact Hfr].
      apply andb_true_iff in Hc. destruct Hc as [Hc1 Hc2].
      apply Nat.ltb_lt in Hc1, Hc2.
      apply Forall_app. split; [exact Hfr |].
      constructor; [| constructor].
      destruct Hsoi as [H0 | Hs]; [lia |].
      apply subarray_startsWithSOI; [exact Hs |].
      now apply (soi_gap b).
    + intros _ _ _. exact Hi.
  - repeat split.
    + exact Hsoi.
    + destruct Hlt; [now left | right; lia].
    + exact Hfr.
    + intros j Hj Hsj. destruct (Nat.eq_dec j i) as [-> | Hne].
      * rewrite Hi in Hsj. discriminate.
      * apply (Hseen j); [lia | exact Hsj].
Qed.

Lemma fold_scan_inv (b : Buffer) (n start : nat) (st : scan) :
  scan_inv b start st ->
  scan_inv b (start + n) (fold_left (scan_step b) (seq start n) st).
Proof.
  revert start st. induction n as [|n IH]; intros start st H; simpl.
  - now rewrite Nat.add_0_r.
  - replace (start + S n)%nat with (S start + n)%nat by lia.
    apply IH. now apply scan_step_inv.
Qed.

Lemma scan_final_inv (b : Buffer) :
  scan_inv b (List.length b - 1)
    (fold_left (scan_step b) (scan_indices b) scan_init).
Proof.
  unfold scan_indices.
  apply (fold_scan_inv b (List.length b - 1) 0 scan_init).
  repeat split; simpl; auto. intros j Hj; lia.
Qed.

Lemma startsWithSOI_nonempty (f : Buffer) : startsWithSOI f -> f <> [].
Proof. intros [rest ->]. discriminate. Qed.

Lemma scanFrames_nonempty (b : Buffer) :
  Forall (fun f => f <> []) (scanFrames b).
Proof.
  unfold scanFrames.
  destruct (scan_final_inv b) as (_ & _ & Hfr & _).
  fold scan_init.
  set (st := fold_left (scan_step b) (scan_indices b) scan_init) in *.
  assert (Hne : Forall (fun f : Buffer => f <> []) (frames st)).
  { eapply Forall_impl; [| exact Hfr]. intros f. apply startsWithSOI_nonempty. }
  destruct (currentFrameStart st <? List.length b)%nat eqn:Hc; [| exact Hne].
  apply Nat.ltb_lt in Hc.
  apply Forall_app. split; [exact Hne |].
  constructor; [| constructor].
  unfold subarray_from. intros Hnil.
  apply (f_equal (@List.length byte)) in Hnil.
  rewrite length_skipn in Hnil. simpl in Hnil. lia.
Qed.

Lemma filter_keeps_all {A} (f : A -> bool) (l : list A) :
  Forall (fun x => f x = true) l -> filter f l = l.
Proof.
  induction 1 as [|x l Hx _ IH]; simpl; [reflexivity |].
  now rewrite Hx, IH.
Qed.

(** The trailing [filter] removes nothing. *)
Lemma parseJpegFrames_scanFrames (b : Buffer) :
  parseJpegFrames b = scanFrames b.
Proof.
  unfold parseJpegFrames. apply filter_keeps_all.
  eapply Forall_impl; [| apply scanFrames_nonempty].
  intros [|x f] H; [contradiction | reflexivity].
Qed.

Lemma scanFrames_startsWithSOI (b : Buffer) :
  hasSOI b -> Forall startsWithSOI (scanFrames b).
Proof.
  intros [j Hj]. unfold scanFrames.
  destruct (scan_final_inv b) as (_ & _ & Hfr & Hseen).
  fold scan_init.
  set (st := fold_left (scan_step b) (scan_indices b) scan_init) in *.
  pose proof (soi_at_bound b j Hj) as Hjb.
  assert (Hs : soi_at b (currentFrameStart st) = true).
  { apply (Hseen j); [lia | exact Hj]. }
  destruct (currentFrameStart st <? List.length b)%nat; [| exact Hfr].
  apply Forall_app. split; [exact Hfr |].
  constructor; [| constructor].
  destruct (soi_at_skipn b _ Hs) as [rest Hrest].
  exists rest. exact Hrest.
Qed.

(** A non-empty stream always yields at least one frame. *)
Lemma scanFrames_not_nil (b : Buffer) : b <> [] -> scanFrames b <> [].
Proof.
  intros Hb. unfold scanFrames.
  destruct (scan_final_inv b) as (_ & Hlt & _ & _).
  fold scan_init.
  set (st := fold_left (scan_step b) (scan_indices b) scan_init) in *.
  assert (Hlen : (0 < List.length b)%nat).
  { destruct b; [contradiction | simpl; lia]. }
  assert (Hc : (currentFrameStart st <? List.length b)%nat = true).
  { apply Nat.ltb_lt. destruct Hlt; lia. }
  rewrite Hc. intros Hnil. apply app_eq_nil in Hnil.
  destruct Hnil as [_ Hnil]. discriminate.
Qed.

Lemma fold_scan_no_soi (b : Buffer) (l : list nat) (st : scan) :
  (forall i, In i l -> soi_at b i = false) ->
  fold_left (scan_step b) l st = st.
Proof.
  revert st. induction l as [|i l IH]; intros st H; simpl; [reflexivity |].
  unfold scan_step at 2. rewrite (H i (or_introl eq_refl)).
  apply IH. intros k Hk. apply H. now right.
Qed.

(** A non-empty stream without any marker is returned whole, as one frame. *)
Lemma parseJpegFrames_markerless (b : Buffer) :
  b <> [] -> ~ hasSOI b -> parseJpegFrames b = [b].
Proof.
  intros Hb Hno. rewrite parseJpegFrames_scanFrames. unfold scanFrames.
  rewrite fold_scan_no_soi.
  - simpl. destruct b as [|x b]; [contradiction | reflexivity].
  - intros i _. destruct (soi_at b i) eqn:Hi; [| reflexivity].
    exfalso. apply Hno. now exists i.
Qed.

Lemma parseJpegFrames_nil_iff (b : Buffer) :
  parseJpegFrames b = [] <-> b = [].
Proof.
  split.
  - intros H. destruct b as [|x b]; [reflexivity |].
    exfalso. rewrite parseJpegFrames_scanFrames in H.
    revert H. apply scanFrames_not_nil. discriminate.
  - intros ->. reflexivity.
Qed.

End ParseJpegFrames.

(** C10. [parseJpegFrames] reads only inside the buffer (every index [i] the
    loop visits has [buffer[i]] and [buffer[i+1]] defined), the final filter
    removes nothing, every returned frame is non-empty, two distinct SOI
    positions are at least two bytes apart, and when the input contains an SOI
    marker every returned frame begins with 0xFF 0xD8.  (The loop runs over
    the fixed index range [0 .. length-2], so it terminates.) *)
Theorem parseJpegFrames_safe :
  forall b : Buffer,
    (forall i, In i (FfmpegUtil.scan_indices b) ->
       exists x y, FfmpegUtil.buf_get b i = Some x /\
                   FfmpegUtil.buf_get b (i + 1) = Some y) /\
    FfmpegUtil.parseJpegFrames b = FfmpegUtil.scanFrames b /\
    Forall (fun f => (0 < List.length f)%nat) (FfmpegUtil.parseJpegFrames b) /\
    (forall i j, FfmpegUtil.soi_at b i = true -> FfmpegUtil.soi_at b j = true ->
                 (i < j)%nat -> (i + 2 <= j)%nat) /\
    (hasSOI b -> Forall startsWithSOI (FfmpegUtil.parseJpegFrames b)).
Proof.
  intros b. split; [| split; [| split; [| split; [apply soi_gap |]]]].
  - intros i Hi. unfold FfmpegUtil.scan_indices in Hi. apply in_seq in Hi.
    unfold FfmpegUtil.buf_get.
    destruct (nth_error b i) as [x|] eqn:Hx.
    + destruct (nth_error b (i + 1)) as [y|] eqn:Hy.
      * exists x, y. split; reflexivity.
      * apply nth_error_None in Hy. lia.
    + apply nth_error_None in Hx. lia.
  - apply parseJpegFrames_scanFrames.
  - rewrite parseJpegFrames_scanFrames.
    eapply Forall_impl; [| apply scanFrames_nonempty].
    intros [|x f] H; [contradiction | simpl; lia].
  - intros H. rewrite parseJpegFrames_scanFrames.
    now apply scanFrames_startsWithSOI.
Qed.

Lemma parseJpegFrames_safe_witness :
  hasSOI (x00 :: jpeg x11 ++ jpeg x22)%list /\
  Forall startsWithSOI (FfmpegUtil.parseJpegFrames (x00 :: jpeg x11 ++ jpeg x22)%list).
Proof.
  assert (H : hasSOI (x00 :: jpeg x11 ++ jpeg x22)%list) by (exists 1%nat; reflexivity).
  split; [exact H |].
  exact (proj2 (proj2 (proj2 (proj2 (parseJpegFrames_safe _)))) H).
Defined.

(* ================================================================== *)
(** ** parseJpegFrames on a concatenation of frames *)

Section Demultiplex.

Import FfmpegUtil.

Lemma soi_at_app_shift (pre l : Buffer) (k : nat) :
  soi_at (pre ++ l)%list (List.length pre + k) = soi_at l k.
Proof.
  unfold soi_at, buf_get.
  rewrite !nth_error_app2 by lia.
  replace (List.length pre + k - List.length pre)%nat with k by lia.
  replace (List.length pre + k + 1 - List.length pre)%nat with (k + 1)%nat by lia.
  reflexivity.
Qed.

Lemma soiOnlyAtStart_length (f : Buffer) :
  soiOnlyAtStart f -> (2 <= List.length f)%nat.
Proof. intros [[rest ->] _]. simpl. lia. Qed.

Lemma startsWithSOI_soi_at (f rest : Buffer) :
  startsWithSOI f -> soi_at (f ++ rest)%list 0 = true.
Proof. intros [r ->]. reflexivity. Qed.

Lemma frame_interior (f rest : Buffer) (k : nat) :
  soiOnlyAtStart f -> rest = [] \/ startsWithSOI rest ->
  (0 < k < List.length f)%nat -> soi_at (f ++ rest)%list k = false.
Proof.
  intros [_ Honly] Hrest Hk.
  destruct (soi_at (f ++ rest)%list k) eqn:Hs; [| reflexivity].
  exfalso. apply soi_at_spec in Hs. destruct Hs as [H1 H2].
  destruct (Nat.lt_ge_cases (k + 1) (List.length f)) as [Hin | Hout].
  - rewrite nth_error_app1 in H1, H2 by lia.
    assert (Hk0 : k = 0%nat) by (apply Honly, soi_at_spec; split; assumption).
    lia.
  - rewrite nth_error_app2 in H2 by lia.
    replace (k + 1 - List.length f)%nat with 0%nat in H2 by lia.
    destruct Hrest as [-> | [r ->]]; simpl in H2; discriminate.
Qed.

Lemma frame_interior_shift (pre f rest : Buffer) (i : nat) :
  soiOnlyAtStart f -> rest = [] \/ startsWithSOI rest ->
  (List.length pre < i < List.length pre + List.length f)%nat ->
  soi_at (pre ++ f ++ rest)%list i = false.
Proof.
  intros Hf Hrest Hi.
  replace i with (List.length pre + (i - List.length pre))%nat by lia.
  rewrite soi_at_app_shift. apply frame_interior; auto. lia.
Qed.

Lemma subarray_middle (pre f rest : Buffer) :
  subarray (pre ++ f ++ rest)%list (List.length pre)
    (List.length pre + List.length f) = f.
Proof.
  unfold subarray.
  rewrite skipn_app, skipn_all, Nat.sub_diag. simpl.
  replace (List.length pre + List.length f - List.length pre)%nat
    with (List.length f) by lia.
  rewrite firstn_app, firstn_all, Nat.sub_diag. simpl.
  apply app_nil_r.
Qed.

Lemma subarray_from_prefix (pre l : Buffer) :
  subarray_from (pre ++ l)%list (List.length pre) = l.
Proof.
  unfold subarray_from.
  rewrite skipn_app, skipn_all, Nat.sub_diag. reflexivity.
Qed.

Lemma concat_frames_rest (g : Buffer) (fs : list Buffer) :
  Forall soiOnlyAtStart (g :: fs) ->
  startsWithSOI (g ++ List.concat fs)%list /\
  (2 <= List.length (g ++ List.concat fs)%list)%nat.
Proof.
  intros H. apply Forall_cons_iff in H. destruct H as [Hg _].
  pose proof (soiOnlyAtStart_length g Hg) as Hlen.
  destruct Hg as [[r ->] _]. split.
  - eexists. simpl. reflexivity.
  - rewrite length_app. simpl in *. lia.
Qed.

(** From a frame that starts at a positive offset on, every frame is kept. *)
Lemma scan_from_positive (fs : list Buffer) :
  forall (f pre : Buffer) (acc : list Buffer) (b : Buffer),
    Forall soiOnlyAtStart (f :: fs) ->
    (0 < List.length pre)%nat ->
    b = (pre ++ f ++ List.concat fs)%list ->
    finish b
      (fold_left (scan_step b)
         (seq (S (List.length pre)) (List.length b - 1 - S (List.length pre)))
         {| frames := acc; currentFrameStart := List.length pre |})
    = (acc ++ f :: fs)%list.
Proof.
  induction fs as [|g fs IH]; intros f pre acc b Hall Hpre Hb.
  - simpl in Hb. apply Forall_cons_iff in Hall. destruct Hall as [Hf _].
    pose proof (soiOnlyAtStart_length f Hf) as Hlen. subst b.
    rewrite fold_scan_no_soi.
    + unfold finish; simpl.
      rewrite !length_app. simpl.
      replace (List.length pre <? List.length pre + (List.length f + 0))%nat
        with true by (symmetry; apply Nat.ltb_lt; lia).
      now rewrite subarray_from_prefix, app_nil_r.
    + intros i Hi. apply in_seq in Hi.
      rewrite !length_app in Hi. simpl in Hi.
      apply frame_interior_shift; [exact Hf | now left | lia].
  - apply Forall_cons_iff in Hall. destruct Hall as [Hf Hrest].
    pose proof (soiOnlyAtStart_length f Hf) as Hlen.
    destruct (concat_frames_rest g fs Hrest) as [Hstart Hrlen].
    simpl in Hb.
    assert (Hblen : List.length b =
              (List.length pre + List.length f
               + List.length (g ++ List.concat fs)%list)%nat).
    { subst b. rewrite !length_app. lia. }
    replace (List.length b - 1 - S (List.length pre))%nat
      with ((List.length f - 1)
            + (1 + (List.length (g ++ List.concat fs)%list - 2)))%nat by lia.
    rewrite !seq_app, !fold_left_app.
    rewrite (fold_scan_no_soi b (seq (S (List.length pre)) (List.length f - 1))).
    2:{ intros i Hi. apply in_seq in Hi. subst b.
        apply frame_interior_shift; [exact Hf | now right | lia]. }
    replace (S (List.length pre) + (List.length f - 1))%nat
      with (List.length pre + List.length f)%nat by lia.
    simpl seq. simpl fold_left at 2.
    assert (Hsoi : soi_at b (List.length pre + List.length f) = true).
    { subst b. rewrite app_assoc.
      replace (List.length pre + List.length f)%nat
        with (List.length (pre ++ f)%list + 0)%nat
        by (rewrite length_app; lia).
      rewrite soi_at_app_shift. now apply startsWithSOI_soi_at with (rest := []) in Hstart;
        rewrite app_nil_r in Hstart. }
    unfold scan_step at 2. rewrite Hsoi. simpl.
    replace ((List.length pre <? List.length pre + List.length f)%nat
             && (0 <? List.length pre)%nat) with true
      by (symmetry; apply andb_true_iff; split; apply Nat.ltb_lt; lia).
    replace (subarray b (List.length pre) (List.length pre + List.length f))
      with f by (subst b; symmetry; apply subarray_middle).
    specialize (IH g (pre ++ f)%list (acc ++ [f])%list b Hrest).
    rewrite length_app in IH.
    replace (List.length b - 1 - S (List.length pre + List.length f))%nat
      with (List.length (g ++ List.concat fs)%list - 2)%nat in IH by lia.
    replace (List.length pre + List.length f + 1)%nat
      with (S (List.length pre + List.length f)) by lia.
    rewrite IH.
    + now rewrite <- app_assoc.
    + lia.
    + subst b. now rewrite <- app_assoc.
Qed.

(** The frame that starts at offset 0 is kept only when it is the only one. *)
Lemma scanFrames_concat (f : Buffer) (fs : list Buffer) :
  Forall soiOnlyAtStart (f :: fs) ->
  scanFrames (List.concat (f :: fs)) =
  match fs with
  | [] => [f]
  | _ :: _ => fs
  end.
Proof.
  intros Hall. apply Forall_cons_iff in Hall. destruct Hall as [Hf Hrest].
  pose proof (soiOnlyAtStart_length f Hf) as Hlen.
  set (b := List.concat (f :: fs)).
  assert (Hb : b = (f ++ List.concat fs)%list) by reflexivity.
  change (scanFrames b) with
    (finish b (fold_left (scan_step b) (scan_indices b) scan_init)).
  unfold scan_indices.
  assert (Hblen : List.length b = (List.length f + List.length (List.concat fs))%nat).
  { rewrite Hb. apply length_app. }
  replace (List.length b - 1)%nat with (S (List.length b - 2)) by lia.
  simpl seq. simpl fold_left.
  assert (H0 : scan_step b scan_init 0 = scan_init).
  { unfold scan_step. rewrite Hb.
    rewrite (startsWithSOI_soi_at f (List.concat fs) (proj1 Hf)). reflexivity. }
  rewrite H0.
  destruct fs as [|g fs].
  - simpl in Hb. rewrite fold_scan_no_soi.
    + unfold finish, scan_init; simpl.
      replace (0 <? List.length b)%nat with true
        by (symmetry; apply Nat.ltb_lt; lia).
      unfold subarray_from. simpl. rewrite Hb. now rewrite app_nil_r.
    + intros i Hi. apply in_seq in Hi. rewrite Hb.
      simpl in Hblen.
      apply frame_interior; [exact Hf | now left | lia].
  - destruct (concat_frames_rest g fs Hrest) as [Hstart Hrlen].
    simpl in Hb, Hblen.
    replace (List.length b - 2)%nat
      with ((List.length f - 1)
            + (1 + (List.length (g ++ List.concat fs)%list - 2)))%nat by lia.
    rewrite !seq_app, !fold_left_app.
    rewrite (fold_scan_no_soi b (seq 1 (List.length f - 1))).
    2:{ intros i Hi. apply in_seq in Hi. rewrite Hb.
        apply frame_interior; [exact Hf | now right | lia]. }
    replace (1 + (List.length f - 1))%nat with (List.length f) by lia.
    simpl seq. simpl fold_left at 2.
    assert (Hsoi : soi_at b (List.length f) = true).
    { rewrite Hb.
      replace (List.length f) with (List.length f + 0)%nat at 1 by lia.
      rewrite soi_at_app_shift.
      apply startsWithSOI_soi_at with (rest := []) in Hstart.
      now rewrite app_nil_r in Hstart. }
    unfold scan_step at 2. rewrite Hsoi. unfold scan_init. simpl.
    rewrite andb_false_r.
    pose proof (scan_from_positive fs g f [] b Hrest) as Hgo.
    replace (List.length b - 1 - S (List.length f))%nat
      with (List.length (g ++ List.concat fs)%list - 2)%nat in Hgo by lia.
    replace (List.length f + 1)%nat with (S (List.length f)) by lia.
    rewrite Hgo; [reflexivity | lia | exact Hb].
Qed.

Lemma parseJpegFrames_concat (f : Buffer) (fs : list Buffer) :
  Forall soiOnlyAtStart (f :: fs) ->
  parseJpegFrames (List.concat (f :: fs)) =
  match fs with
  | [] => [f]
  | _ :: _ => fs
  end.
Proof.
  intros H. rewrite parseJpegFrames_scanFrames. now apply scanFrames_concat.
Qed.

End Demultiplex.

Lemma jpeg_soiOnlyAtStart (payload : byte) : soiOnlyAtStart (jpeg payload).
Proof.
  split; [now exists [payload; xff; xd9] |].
  intros i H. pose proof (soi_at_bound _ _ H) as Hb. simpl in Hb.
  destruct i as [|[|[|[|i]]]]; try reflexivity; try lia;
    unfold FfmpegUtil.soi_at in H; simpl in H;
    rewrite ?andb_false_r in H; discriminate.
Qed.

Lemma jpegs_soiOnlyAtStart (payloads : list byte) :
  Forall soiOnlyAtStart (map jpeg payloads).
Proof.
  induction payloads as [|p ps IH]; simpl; constructor;
    [apply jpeg_soiOnlyAtStart | exact IH].
Qed.

(** C3 (evaluation of the code).  On the concatenation of K >= 2 frames, each
    starting with the SOI marker and containing it nowhere else,
    [parseJpegFrames] returns only the last K-1 frames: the frame that starts
    at offset 0 is never pushed, because [currentFrameStart > 0] is false for
    it.  For two frames the result is the second frame alone. *)
Theorem parseJpegFrames_drops_first_frame :
  forall (p q : byte) (ps : list byte),
    Forall soiOnlyAtStart (map jpeg (p :: q :: ps)) /\
    FfmpegUtil.parseJpegFrames (List.concat (map jpeg (p :: q :: ps)))
    = map jpeg (q :: ps) /\
    List.length (FfmpegUtil.parseJpegFrames (List.concat (map jpeg (p :: q :: ps))))
    = List.length (q :: ps) /\
    FfmpegUtil.parseJpegFrames (jpeg x11 ++ jpeg x22)%list = [jpeg x22] /\
    FfmpegUtil.parseJpegFrames (jpeg x11) = [jpeg x11].
Proof.
  intros p q ps.
  pose proof (jpegs_soiOnlyAtStart (p :: q :: ps)) as Hall.
  pose proof (parseJpegFrames_concat (jpeg p) (map jpeg (q :: ps)) Hall) as Hparse.
  simpl map in *.
  repeat split.
  - exact Hall.
  - exact Hparse.
  - rewrite Hparse. simpl. now rewrite length_map.
Qed.

(* ================================================================== *)
(** ** The batch path of extractMultipleFrames *)

Lemma extractMultipleFrames_batch (E : Env) (url : string) (tss : list Z) :
  isValidVideoUrl E url = true -> (2 <= List.length tss)%nat ->
  FfmpegUtil.extractMultipleFrames E url tss =
  ([FfmpegUtil.batchCall url tss],
   match runDecoder E (FfmpegUtil.batchCall url tss) with
   | Err message =>
       Err ("FFmpeg batch extraction failed: " ++ message ++ FfmpegUtil.ffmpegHint)
   | Ok stream =>
       match FfmpegUtil.parseJpegFrames stream with
       | [] => Err noFramesMessage
       | frames => Ok (FfmpegUtil.buildFrameMap tss frames,
                       ffmpegElapsed E (FfmpegUtil.batchCall url tss))
       end
   end).
Proof.
  intros Hurl Hlen. unfold FfmpegUtil.extractMultipleFrames. rewrite Hurl. simpl.
  destruct tss as [|t1 [|t2 ts]]; simpl in Hlen; try lia.
  f_equal.
  destruct (runDecoder E (FfmpegUtil.batchCall url (t1 :: t2 :: ts))) as [stream|e];
    [| reflexivity].
  destruct (FfmpegUtil.parseJpegFrames stream); reflexivity.
Qed.

(** C5 (amended).  On the batch path the no-frames error is raised exactly
    when the decoder's byte stream is empty; a non-empty stream without any
    SOI marker is demultiplexed into one frame, the whole stream, and the call
    goes on with it. *)
Theorem noFrames_iff_empty_stream :
  forall (E : Env) (url : string) (tss : list Z) (stream : Buffer),
    isValidVideoUrl E url = true ->
    (2 <= List.length tss)%nat ->
    runDecoder E (FfmpegUtil.batchCall url tss) = Ok stream ->
    (FfmpegUtil.parseJpegFrames stream = [] <-> stream = []) /\
    (outcome (FfmpegUtil.extractMultipleFrames E url tss) = Err noFramesMessage
       <-> stream = []) /\
    (stream <> [] -> ~ hasSOI stream ->
       FfmpegUtil.parseJpegFrames stream = [stream] /\
       outcome (FfmpegUtil.extractMultipleFrames E url tss) =
       Ok (FfmpegUtil.buildFrameMap tss [stream],
           ffmpegElapsed E (FfmpegUtil.batchCall url tss))).
Proof.
  intros E url tss stream Hurl Hlen Hdec.
  pose proof (parseJpegFrames_nil_iff stream) as Hnil.
  rewrite (extractMultipleFrames_batch E url tss Hurl Hlen), Hdec.
  unfold outcome; simpl.
  split; [exact Hnil |]. split.
  - destruct (FfmpegUtil.parseJpegFrames stream) as [|f fs] eqn:Hp.
    + split; [intros _; now apply Hnil | reflexivity].
    + split; [discriminate |].
      intros Hs. apply Hnil in Hs. discriminate.
  - intros Hne Hno.
    rewrite (parseJpegFrames_markerless stream Hne Hno). split; reflexivity.
Qed.

Lemma noFrames_iff_empty_stream_witness :
  outcome (FfmpegUtil.extractMultipleFrames (demoEnv []) demoUrl [1000; 2000])
  = Err noFramesMessage.
Proof.
  apply (proj1 (proj2 (noFrames_iff_empty_stream (demoEnv []) demoUrl [1000; 2000] []
                         eq_refl (le_n 2) eq_refl))).
  reflexivity.
Defined.

(** C5 (counterexample to the claim as stated).  The one-byte stream [0x00]
    contains no SOI marker, yet it is demultiplexed into one frame and the
    batch extraction succeeds instead of failing with the no-frames error. *)
Lemma markerless_stream_is_one_frame :
  ~ hasSOI [x00] /\
  FfmpegUtil.parseJpegFrames [x00] = [[x00]] /\
  outcome (FfmpegUtil.extractMultipleFrames (demoEnv [x00]) demoUrl [1000; 2000])
  = Ok ([(1000, [x00])], 0) /\
  outcome (FfmpegUtil.extractMultipleFrames (demoEnv [x00]) demoUrl [1000; 2000])
  <> Err noFramesMessage.
Proof.
  split.
  { intros [i H]. apply soi_at_bound in H. simpl in H. lia. }
  split; [reflexivity |].
  split; [reflexivity | discriminate].
Qed.

(* ================================================================== *)
(** ** The insertion-ordered Map *)

Section MapFacts.

Context {V : Type}.

Lemma Map_set_keys (m : JS.Map V) (k : Z) (v : V) (k' : Z) :
  In k' (map fst (JS.Map_set m k v)) <-> k' = k \/ In k' (map fst m).
Proof.
  induction m as [|[k0 v0] m IH]; simpl.
  - intuition.
  - destruct (k0 =? k) eqn:Hk; simpl.
    + apply Z.eqb_eq in Hk. subst. intuition.
    + rewrite IH. intuition.
Qed.

Lemma Map_set_NoDup (m : JS.Map V) (k : Z) (v : V) :
  NoDup (map fst m) -> NoDup (map fst (JS.Map_set m k v)).
Proof.
  induction m as [|[k0 v0] m IH]; simpl; intros H.
  - constructor; [intros [] | constructor].
  - inversion H as [|? ? Hnot Hnd]; subst.
    destruct (k0 =? k) eqn:Hk; simpl.
    + constructor; assumption.
    + apply Z.eqb_neq in Hk. constructor; [| now apply IH].
      rewrite Map_set_keys. intros [-> | Hin]; [now apply Hk | now apply Hnot].
Qed.

Lemma Map_set_fresh (m : JS.Map V) (k : Z) (v : V) :
  ~ In k (map fst m) -> JS.Map_set m k v = (m ++ [(k, v)])%list.
Proof.
  induction m as [|[k0 v0] m IH]; simpl; intros H; [reflexivity |].
  destruct (k0 =? k) eqn:Hk.
  - apply Z.eqb_eq in Hk. exfalso. apply H. now left.
  - rewrite IH; [reflexivity |]. intros Hin. apply H. now right.
Qed.

Lemma Map_set_In (m : JS.Map V) (k : Z) (v : V) (k' : Z) (v' : V) :
  In (k', v') (JS.Map_set m k v) -> (k', v') = (k, v) \/ In (k', v') m.
Proof.
  induction m as [|[k0 v0] m IH]; simpl.
  - intros [H | []]. left. now symmetry.
  - destruct (k0 =? k) eqn:Hk; simpl.
    + apply Z.eqb_eq in Hk. subst. intros [H | H]; [left; now symmetry | auto].
    + intros [H | H]; [auto |]. destruct (IH H); auto.
Qed.

Lemma Map_get_set (m : JS.Map V) (k : Z) (v : V) (k' : Z) :
  JS.Map_get (JS.Map_set m k v) k' =
  if k =? k' then Some v else JS.Map_get m k'.
Proof.
  induction m as [|[k0 v0] m IH]; simpl.
  - reflexivity.
  - destruct (k0 =? k) eqn:Hk; simpl.
    + apply Z.eqb_eq in Hk. subst. destruct (k =? k'); reflexivity.
    + rewrite IH. destruct (k0 =? k') eqn:Hk'; [| reflexivity].
      apply Z.eqb_eq in Hk'. subst. now rewrite Z.eqb_sym, Hk.
Qed.

Lemma In_Map_get (m : JS.Map V) (k : Z) (v : V) :
  NoDup (map fst m) -> In (k, v) m -> JS.Map_get m k = Some v.
Proof.
  induction m as [|[k0 v0] m IH]; simpl; intros Hnd Hin; [contradiction |].
  inversion Hnd as [|? ? Hnot Hnd']; subst.
  destruct Hin as [Heq | Hin].
  - injection Heq as -> ->. now rewrite Z.eqb_refl.
  - destruct (k0 =? k) eqn:Hk; [| now apply IH].
    apply Z.eqb_eq in Hk. subst. exfalso. apply Hnot.
    apply in_map_iff. now exists (k, v).
Qed.

Lemma Map_of_pairs_keys (l : list (Z * V)) (m : JS.Map V) (k : Z) :
  In k (map fst (Map_of_pairs l m)) <-> In k (map fst m) \/ In k (map fst l).
Proof.
  revert m. induction l as [|[k0 v0] l IH]; intros m; simpl.
  - intuition.
  - rewrite IH, Map_set_keys. simpl. intuition.
Qed.

Lemma Map_of_pairs_NoDup (l : list (Z * V)) (m : JS.Map V) :
  NoDup (map fst m) -> NoDup (map fst (Map_of_pairs l m)).
Proof.
  revert m. induction l as [|[k0 v0] l IH]; intros m H; simpl; [exact H |].
  apply IH. now apply Map_set_NoDup.
Qed.

Lemma Map_of_pairs_In (l : list (Z * V)) (m : JS.Map V) (k : Z) (v : V) :
  In (k, v) (Map_of_pairs l m) -> In (k, v) m \/ In (k, v) l.
Proof.
  revert m. induction l as [|[k0 v0] l IH]; intros m; simpl; [auto |].
  intros H. destruct (IH _ H) as [H1 | H1]; [| auto].
  destruct (Map_set_In _ _ _ _ _ H1) as [H2 | H2]; [| auto].
  right. left. now symmetry.
Qed.

(** Without repeated keys the map is the list of pairs itself. *)
Lemma Map_of_pairs_distinct (l : list (Z * V)) (m : JS.Map V) :
  NoDup (map fst (m ++ l)%list) -> Map_of_pairs l m = (m ++ l)%list.
Proof.
  revert m. induction l as [|[k0 v0] l IH]; intros m H; simpl.
  - now rewrite app_nil_r.
  - rewrite Map_set_fresh.
    + rewrite IH; rewrite <- app_assoc; [reflexivity | exact H].
    + rewrite map_app in H. simpl in H.
      apply NoDup_remove_2 in H. intros Hin. apply H.
      apply in_or_app. now left.
Qed.

Lemma Map_get_of_pairs (l : list (Z * V)) (m : JS.Map V) (k : Z) :
  JS.Map_get (Map_of_pairs l m) k = lastValue l k (JS.Map_get m k).
Proof.
  revert m. induction l as [|[k0 v0] l IH]; intros m; simpl; [reflexivity |].
  now rewrite IH, Map_get_set.
Qed.

(** The last pair with a given key decides the value: last wins. *)
Lemma lastValue_Some (l : list (Z * V)) (k : Z) (v : V) :
  lastValue l k None = Some v ->
  exists l1 l2, l = (l1 ++ (k, v) :: l2)%list /\ ~ In k (map fst l2).
Proof.
  induction l as [|[k0 v0] l IH] using rev_ind; [discriminate |].
  unfold lastValue. rewrite fold_left_app. simpl.
  destruct (k0 =? k) eqn:Hk.
  - apply Z.eqb_eq in Hk. subst. intros H. injection H as ->.
    exists l, []. split; [reflexivity | intros []].
  - intros H. destruct (IH H) as (l1 & l2 & -> & Hnot).
    exists l1, (l2 ++ [(k0, v0)])%list. split.
    + now rewrite <- app_assoc.
    + rewrite map_app. simpl. intros Hin. apply in_app_or in Hin.
      destruct Hin as [Hin | [Heq | []]]; [now apply Hnot |].
      apply Z.eqb_neq in Hk. now apply Hk.
Qed.

Lemma Map_of_pairs_last_wins (l : list (Z * V)) (k : Z) (v : V) :
  In (k, v) (Map_of_pairs l []) ->
  exists l1 l2, l = (l1 ++ (k, v) :: l2)%list /\ ~ In k (map fst l2).
Proof.
  intros Hin. apply lastValue_Some.
  change (@None V) with (JS.Map_get (@nil (Z * V)) k).
  rewrite <- Map_get_of_pairs.
  apply In_Map_get; [| exact Hin].
  apply Map_of_pairs_NoDup. constructor.
Qed.

(** One entry per distinct key. *)
Lemma Map_of_pairs_length (l : list (Z * V)) :
  List.length (Map_of_pairs l []) = List.length (nodup Z.eq_dec (map fst l)).
Proof.
  rewrite <- (length_map fst (Map_of_pairs l [])).
  apply Nat.le_antisymm; apply NoDup_incl_length.
  - apply Map_of_pairs_NoDup. constructor.
  - intros k Hk. apply nodup_In. apply Map_of_pairs_keys in Hk.
    destruct Hk as [[] | Hk]. exact Hk.
  - apply NoDup_nodup.
  - intros k Hk. apply nodup_In in Hk. apply Map_of_pairs_keys. now right.
Qed.

Lemma Map_of_pairs_length_le (l : list (Z * V)) :
  (List.length (Map_of_pairs l []) <= List.length l)%nat.
Proof.
  rewrite <- (length_map fst (Map_of_pairs l [])), <- (length_map fst l).
  apply NoDup_incl_length.
  - apply Map_of_pairs_NoDup. constructor.
  - intros k Hk. apply Map_of_pairs_keys in Hk. destruct Hk as [[] | Hk]. exact Hk.
Qed.

End MapFacts.

Lemma map_fst_combine {A B} (l : list A) (l' : list B) :
  map fst (combine l l') = firstn (List.length l') l.
Proof.
  revert l'. induction l as [|x l IH]; intros [|y l']; simpl;
    try reflexivity.
  now rewrite IH.
Qed.

(** The index loop of [extractMultipleFrames] sets the positionally matched
    pairs, in order. *)
Lemma frameMap_loop (ts : list Z) :
  forall (pre : list Z) (frames : list Buffer) (m : JS.Map Buffer),
    fold_left (FfmpegUtil.frameMap_step (pre ++ ts)%list frames)
      (seq (List.length pre) (List.length ts)) m
    = Map_of_pairs (combine ts (skipn (List.length pre) frames)) m.
Proof.
  induction ts as [|t ts IH]; intros pre frames m; simpl; [reflexivity |].
  specialize (IH (pre ++ [t])%list frames).
  rewrite <- app_assoc, length_app in IH. simpl in IH.
  rewrite Nat.add_1_r in IH. rewrite IH. clear IH.
  unfold FfmpegUtil.frameMap_step.
  rewrite nth_error_app2, Nat.sub_diag by lia. simpl nth_error.
  destruct (nth_error frames (List.length pre)) as [f|] eqn:Hf.
  - assert (Hlt : (List.length pre < List.length frames)%nat).
    { apply nth_error_Some. rewrite Hf. discriminate. }
    apply Nat.ltb_lt in Hlt. rewrite Hlt.
    destruct (nth_error_split _ _ Hf) as (l1 & l2 & Heq & Hl1).
    assert (H1 : skipn (List.length pre) frames = f :: l2).
    { rewrite Heq, <- Hl1, skipn_app, skipn_all, Nat.sub_diag. reflexivity. }
    assert (H2 : skipn (S (List.length pre)) frames = l2).
    { rewrite Heq, <- Hl1, skipn_app, skipn_all2 by lia.
      replace (S (List.length l1) - List.length l1)%nat with 1%nat by lia.
      reflexivity. }
    rewrite H1, H2. reflexivity.
  - apply nth_error_None in Hf.
    rewrite !skipn_all2 by lia.
    destruct (List.length pre <? List.length frames)%nat; now rewrite combine_nil.
Qed.

Lemma buildFrameMap_pairs (tss : list Z) (frames : list Buffer) :
  FfmpegUtil.buildFrameMap tss frames = Map_of_pairs (combine tss frames) [].
Proof.
  unfold FfmpegUtil.buildFrameMap.
  exact (frameMap_loop tss [] frames JS.Map_empty).
Qed.

(* ================================================================== *)
(** ** Array.sort and Promise.all *)

Section SortFacts.

Context {A : Type} (key : A -> Z).

Lemma sort_insert_perm (x : A) (l : list A) :
  Permutation (JS.sort_insert key x l) (x :: l).
Proof.
  induction l as [|y l IH]; simpl; [reflexivity |].
  destruct (key x <=? key y); [reflexivity |].
  rewrite IH. apply perm_swap.
Qed.

Lemma Array_sort_perm (l : list A) : Permutation (JS.Array_sort key l) l.
Proof.
  induction l as [|x l IH]; simpl; [reflexivity |].
  rewrite sort_insert_perm. now constructor.
Qed.

Lemma sort_insert_sorted (x : A) (l : list A) :
  StronglySorted (keyLe key) l -> StronglySorted (keyLe key) (JS.sort_insert key x l).
Proof.
  induction 1 as [|y l Hs IH Hy]; simpl.
  - repeat constructor.
  - destruct (key x <=? key y) eqn:Hc.
    + apply Z.leb_le in Hc. constructor; [now constructor |].
      constructor; [exact Hc |].
      eapply Forall_impl; [| exact Hy]. unfold keyLe. intros z Hz. lia.
    + apply Z.leb_gt in Hc. constructor; [exact IH |].
      apply (Permutation_Forall (symmetry (sort_insert_perm x l))).
      constructor; [unfold keyLe; lia | exact Hy].
Qed.

Lemma Array_sort_sorted (l : list A) : StronglySorted (keyLe key) (JS.Array_sort key l).
Proof.
  induction l as [|x l IH]; simpl; [constructor |].
  now apply sort_insert_sorted.
Qed.

Lemma Array_sort_singleton (x : A) : JS.Array_sort key [x] = [x].
Proof. reflexivity. Qed.

End SortFacts.

Lemma Promise_all_Ok {A B} (f : A -> result B) (l : list A) (rs : list B) :
  JS.Promise_all (map f l) = Ok rs -> Forall2 (fun x r => f x = Ok r) l rs.
Proof.
  revert rs. induction l as [|x l IH]; simpl; intros rs H.
  - injection H as <-. constructor.
  - destruct (f x) as [r|e] eqn:Hx; [| discriminate].
    destruct (JS.Promise_all (map f l)) as [rs'|e]; [| discriminate].
    injection H as <-. constructor; [exact Hx | now apply IH].
Qed.

Lemma Promise_all_Err {A B} (f : A -> result B) (l : list A) (e : string) :
  JS.Promise_all (map f l) = Err e -> exists x, In x l /\ f x = Err e.
Proof.
  induction l as [|x l IH]; simpl; intros H; [discriminate |].
  destruct (f x) as [r|e'] eqn:Hx.
  - destruct (JS.Promise_all (map f l)) as [rs'|e'']; [discriminate |].
    injection H as ->. destruct (IH eq_refl) as (y & Hy & Hfy).
    exists y. split; [now right | exact Hfy].
  - injection H as ->. exists x. split; [now left | exact Hx].
Qed.

(* ================================================================== *)
(** ** VideoProcessorRepository.extractColorsFromFrames *)

Lemma extractColorsFromFrames_unfold (E : Env) (url : string) (tss : list Z) :
  VideoProcessorRepository.extractColorsFromFrames E url tss =
  match FfmpegUtil.extractMultipleFrames E url tss with
  | (t, Ok (frames, ms)) =>
      (t, match JS.Promise_all (map (VideoProcessorRepository.colorOfEntry E ms) frames) with
          | Ok rs => Ok (JS.Array_sort timestamp rs)
          | Err e => Err e
          end)
  | (t, Err e) => (t, Err e)
  end.
Proof.
  unfold VideoProcessorRepository.extractColorsFromFrames, bind,
    VideoProcessorRepository.lift, ret, JS.Map_entries.
  destruct (FfmpegUtil.extractMultipleFrames E url tss) as [t [[frames ms]|e]];
    [| reflexivity].
  destruct (JS.Promise_all (map (VideoProcessorRepository.colorOfEntry E ms) frames));
    simpl; now rewrite ?app_nil_r.
Qed.

Lemma colorOfEntry_Ok (E : Env) (ms k : Z) (f : Buffer) (r : ColorResult) :
  VideoProcessorRepository.colorOfEntry E ms (k, f) = Ok r ->
  timestamp r = k /\ ffmpegMs r = ms /\
  ColorUtil.extractDominantColor E f = Ok (color r).
Proof.
  unfold VideoProcessorRepository.colorOfEntry.
  destruct (ColorUtil.extractDominantColor E f) as [c|e]; [| discriminate].
  intros H. injection H as <-. simpl. repeat split.
Qed.

Lemma colorOfEntry_Err (E : Env) (ms k : Z) (f : Buffer) (e : string) :
  VideoProcessorRepository.colorOfEntry E ms (k, f) = Err e ->
  ColorUtil.extractDominantColor E f = Err e.
Proof.
  unfold VideoProcessorRepository.colorOfEntry.
  destruct (ColorUtil.extractDominantColor E f) as [c|e']; [discriminate |].
  intros H. injection H as ->. reflexivity.
Qed.

Lemma entries_timestamps (E : Env) (ms : Z) (m : JS.Map Buffer) (rs : list ColorResult) :
  Forall2 (fun x r => VideoProcessorRepository.colorOfEntry E ms x = Ok r) m rs ->
  map timestamp rs = map fst m.
Proof.
  induction 1 as [|[k f] r m rs Hx _ IH]; simpl; [reflexivity |].
  apply colorOfEntry_Ok in Hx. destruct Hx as [-> _]. now rewrite IH.
Qed.

Lemma Forall2_In_r {A B} (R : A -> B -> Prop) (l : list A) (rs : list B) (r : B) :
  Forall2 R l rs -> In r rs -> exists x, In x l /\ R x r.
Proof.
  induction 1 as [|x y l rs Hxy _ IH]; simpl; [intros [] |].
  intros [<- | Hin].
  - exists x. split; [now left | exact Hxy].
  - destruct (IH Hin) as (x' & Hx' & HR). exists x'. split; [now right | exact HR].
Qed.

(** What a successful call is made of. *)
Lemma extractColorsFromFrames_Ok (E : Env) (url : string) (tss : list Z)
    (results : list ColorResult) :
  outcome (VideoProcessorRepository.extractColorsFromFrames E url tss) = Ok results ->
  exists m ms rs,
    outcome (FfmpegUtil.extractMultipleFrames E url tss) = Ok (m, ms) /\
    Forall2 (fun x r => VideoProcessorRepository.colorOfEntry E ms x = Ok r) m rs /\
    results = JS.Array_sort timestamp rs.
Proof.
  rewrite extractColorsFromFrames_unfold. unfold outcome.
  destruct (FfmpegUtil.extractMultipleFrames E url tss) as [t [[m ms]|e]]; simpl;
    [| discriminate].
  destruct (JS.Promise_all (map (VideoProcessorRepository.colorOfEntry E ms) m))
    as [rs|e] eqn:Hall; [| discriminate].
  intros H. injection H as <-.
  exists m, ms, rs. repeat split. now apply Promise_all_Ok.
Qed.

(** Whatever the request order, a successful call returns its results in
    ascending timestamp order. *)
Lemma extractColorsFromFrames_ascending (E : Env) (url : string) (tss : list Z)
    (results : list ColorResult) :
  outcome (VideoProcessorRepository.extractColorsFromFrames E url tss) = Ok results ->
  StronglySorted (keyLe timestamp) results.
Proof.
  intros H. destruct (extractColorsFromFrames_Ok E url tss results H)
    as (m & ms & rs & _ & _ & ->).
  apply Array_sort_sorted.
Qed.

Lemma batch_frame_map (E : Env) (url : string) (tss : list Z) (stream : Buffer) :
  isValidVideoUrl E url = true ->
  (2 <= List.length tss)%nat ->
  runDecoder E (FfmpegUtil.batchCall url tss) = Ok stream ->
  FfmpegUtil.parseJpegFrames stream <> [] ->
  FfmpegUtil.extractMultipleFrames E url tss =
  ([FfmpegUtil.batchCall url tss],
   Ok (Map_of_pairs (combine tss (FfmpegUtil.parseJpegFrames stream)) [],
       ffmpegElapsed E (FfmpegUtil.batchCall url tss))).
Proof.
  intros Hurl Hlen Hdec Hne.
  rewrite (extractMultipleFrames_batch E url tss Hurl Hlen), Hdec.
  destruct (FfmpegUtil.parseJpegFrames stream) as [|f fs] eqn:Hp; [contradiction |].
  now rewrite buildFrameMap_pairs.
Qed.

(** C1 (evaluation of the code).  For the request [5000; 1000; 3000] and a
    stream that demultiplexes into three frames, the call succeeds and returns
    the results in ascending timestamp order 1000, 3000, 5000: the final
    [sort] by timestamp replaces the caller's order. *)
Theorem extractColorsFromFrames_sorts_by_timestamp :
  List.length (FfmpegUtil.parseJpegFrames stream4) = 3%nat /\
  outcome (VideoProcessorRepository.extractColorsFromFrames
             (demoEnv stream4) demoUrl [5000; 1000; 3000])
  = Ok [mkResult 1000 "#330000"; mkResult 3000 "#440000"; mkResult 5000 "#220000"] /\
  map timestamp
    [mkResult 1000 "#330000"; mkResult 3000 "#440000"; mkResult 5000 "#220000"]
  <> [5000; 1000; 3000] /\
  outcome (VideoProcessorRepository.extractColorsFromFrames
             (demoEnv stream3) demoUrl [5000; 1000; 3000])
  = Ok [mkResult 1000 "#330000"; mkResult 5000 "#220000"].
Proof.
  split; [reflexivity |].
  split; [vm_compute; reflexivity |].
  split; [discriminate | vm_compute; reflexivity].
Qed.

(** C2 (amended).  On the batch path, when the stream demultiplexes into
    K >= 1 frames the call does not fail on an undercount: the frame map holds
    the positionally matched pairs (timestamp i, frame i), i < min(N, K), so
    it has at most min(N, K) entries, exactly min(N, K) when the matched
    timestamps are distinct; a successful call returns one result per map
    entry, and a failing one fails with a colour-extraction error. *)
Theorem undercount_returns_matched_prefix :
  forall (E : Env) (url : string) (tss : list Z) (stream : Buffer)
         (frames : list Buffer),
    isValidVideoUrl E url = true ->
    (2 <= List.length tss)%nat ->
    runDecoder E (FfmpegUtil.batchCall url tss) = Ok stream ->
    FfmpegUtil.parseJpegFrames stream = frames ->
    frames <> [] ->
    let m := Map_of_pairs (combine tss frames) [] in
    FfmpegUtil.extractMultipleFrames E url tss =
      ([FfmpegUtil.batchCall url tss],
       Ok (m, ffmpegElapsed E (FfmpegUtil.batchCall url tss))) /\
    (List.length m <= Nat.min (List.length tss) (List.length frames))%nat /\
    (NoDup (firstn (List.length frames) tss) ->
       m = combine tss frames /\
       List.length m = Nat.min (List.length tss) (List.length frames)) /\
    (forall results,
       outcome (VideoProcessorRepository.extractColorsFromFrames E url tss) = Ok results ->
       List.length results = List.length m) /\
    (forall e,
       outcome (VideoProcessorRepository.extractColorsFromFrames E url tss) = Err e ->
       exists k f, In (k, f) m /\ ColorUtil.extractDominantColor E f = Err e).
Proof.
  intros E url tss stream frames Hurl Hlen Hdec Hparse Hne m.
  assert (Hrun := batch_frame_map E url tss stream Hurl Hlen Hdec).
  rewrite Hparse in Hrun. specialize (Hrun Hne). fold m in Hrun.
  split; [exact Hrun |].
  split.
  { unfold m. rewrite <- (length_combine tss frames). apply Map_of_pairs_length_le. }
  split.
  { intros Hnd. assert (Hm : m = combine tss frames).
    { unfold m. apply (Map_of_pairs_distinct (combine tss frames) []).
      simpl. now rewrite map_fst_combine. }
    split; [exact Hm |]. rewrite Hm. apply length_combine. }
  split.
  - intros results Hres.
    destruct (extractColorsFromFrames_Ok E url tss results Hres)
      as (m' & ms & rs & Hm' & Hall & ->).
    rewrite Hrun in Hm'. unfold outcome in Hm'. simpl in Hm'.
    injection Hm' as <- <-.
    rewrite (Permutation_length (Array_sort_perm timestamp rs)).
    symmetry. eapply Forall2_length. exact Hall.
  - intros e Herr.
    rewrite extractColorsFromFrames_unfold, Hrun in Herr.
    unfold outcome in Herr. simpl in Herr.
    destruct (JS.Promise_all _) as [rs|e'] eqn:Hall; [discriminate |].
    injection Herr as ->.
    destruct (Promise_all_Err _ _ _ Hall) as ([k f] & Hin & Hx).
    exists k, f. split; [exact Hin |]. now apply colorOfEntry_Err in Hx.
Qed.

Lemma undercount_returns_matched_prefix_witness :
  FfmpegUtil.extractMultipleFrames (demoEnv stream3) demoUrl [1000; 2000; 3000]
  = ([FfmpegUtil.batchCall demoUrl [1000; 2000; 3000]],
     Ok ([(1000, jpeg x22); (2000, jpeg x33)], 0)).
Proof.
  refine (proj1 (undercount_returns_matched_prefix (demoEnv stream3) demoUrl
                   [1000; 2000; 3000] stream3 [jpeg x22; jpeg x33]
                   eq_refl _ eq_refl eq_refl _)).
  - simpl. lia.
  - discriminate.
Defined.

(** C2 (counterexample to the claim as stated).  Three timestamps are
    requested, the demultiplexer produces two frames, and the call succeeds
    with two results: neither three results nor a failure. *)
Lemma partial_batch_is_returned :
  List.length (FfmpegUtil.parseJpegFrames stream3) = 2%nat /\
  outcome (VideoProcessorRepository.extractColorsFromFrames
             (demoEnv stream3) demoUrl [1000; 2000; 3000])
  = Ok [mkResult 1000 "#220000"; mkResult 2000 "#330000"] /\
  List.length [mkResult 1000 "#220000"; mkResult 2000 "#330000"]
  <> List.length [1000; 2000; 3000].
Proof.
  split; [reflexivity |].
  split; [vm_compute; reflexivity | discriminate].
Qed.

(** C4 (amended).  Duplicate timestamps are collapsed by the timestamp-to-frame
    map: a successful batch call returns results with pairwise distinct
    timestamps, one per distinct timestamp among the matched ones, and the
    result of a timestamp is produced from the frame matched to its last
    occurrence (last wins): that is the frame on which the colour extraction
    for it was run, and succeeded. *)
Theorem duplicate_timestamps_collapse :
  forall (E : Env) (url : string) (tss : list Z) (stream : Buffer)
         (frames : list Buffer) (results : list ColorResult),
    isValidVideoUrl E url = true ->
    (2 <= List.length tss)%nat ->
    runDecoder E (FfmpegUtil.batchCall url tss) = Ok stream ->
    FfmpegUtil.parseJpegFrames stream = frames ->
    outcome (VideoProcessorRepository.extractColorsFromFrames E url tss) = Ok results ->
    NoDup (map timestamp results) /\
    List.length results
    = List.length (nodup Z.eq_dec (firstn (List.length frames) tss)) /\
    (forall r, In r results ->
       exists l1 l2 f,
         combine tss frames = (l1 ++ (timestamp r, f) :: l2)%list /\
         ~ In (timestamp r) (map fst l2) /\
         isOk (ColorUtil.extractDominantColor E f) = true).
Proof.
  intros E url tss stream frames results Hurl Hlen Hdec Hparse Hres.
  destruct (extractColorsFromFrames_Ok E url tss results Hres)
    as (m & ms & rs & Hm & Hall & ->).
  assert (Hne : frames <> []).
  { intros ->. rewrite (extractMultipleFrames_batch E url tss Hurl Hlen), Hdec, Hparse in Hm.
    discriminate. }
  rewrite <- Hparse in Hne.
  rewrite (batch_frame_map E url tss stream Hurl Hlen Hdec Hne), Hparse in Hm.
  unfold outcome in Hm. simpl in Hm. injection Hm as <- <-.
  pose proof (Array_sort_perm timestamp rs) as Hperm.
  pose proof (entries_timestamps E _ _ rs Hall) as Hkeys.
  split.
  { apply (Permutation_NoDup (Permutation_map timestamp (Permutation_sym Hperm))).
    rewrite Hkeys. apply Map_of_pairs_NoDup. constructor. }
  split.
  { rewrite (Permutation_length Hperm), <- (length_map timestamp rs), Hkeys.
    rewrite length_map, Map_of_pairs_length. now rewrite map_fst_combine. }
  intros r Hr.
  apply (Permutation_in r Hperm) in Hr.
  destruct (Forall2_In_r _ _ _ r Hall Hr) as ([k f] & Hin & Hx).
  apply colorOfEntry_Ok in Hx. destruct Hx as (Hk & _ & Hc). subst k.
  destruct (Map_of_pairs_last_wins _ _ _ Hin) as (l1 & l2 & Heq & Hnot).
  exists l1, l2, f. rewrite Hc. repeat split; assumption.
Qed.

Lemma duplicate_timestamps_collapse_witness :
  List.length [mkResult 1000 "#330000"; mkResult 2000 "#440000"]
  = List.length (nodup Z.eq_dec (firstn 3 [1000; 1000; 2000])).
Proof.
  refine (proj1 (proj2 (duplicate_timestamps_collapse (demoEnv stream4) demoUrl
                          [1000; 1000; 2000] stream4
                          [jpeg x22; jpeg x33; jpeg x44]
                          [mkResult 1000 "#330000"; mkResult 2000 "#440000"]
                          eq_refl _ eq_refl eq_refl _))).
  - simpl. lia.
  - vm_compute. reflexivity.
Defined.

(** C4 (counterexample to the claim as stated).  For [1000; 1000; 2000] and a
    stream that demultiplexes into three frames, the successful call returns
    two results, not three. *)
Lemma duplicate_request_yields_two_results :
  List.length (FfmpegUtil.parseJpegFrames stream4) = 3%nat /\
  outcome (VideoProcessorRepository.extractColorsFromFrames
             (demoEnv stream4) demoUrl [1000; 1000; 2000])
  = Ok [mkResult 1000 "#330000"; mkResult 2000 "#440000"] /\
  List.length [mkResult 1000 "#330000"; mkResult 2000 "#440000"] <> 3%nat.
Proof.
  split; [reflexivity |].
  split; [vm_compute; reflexivity | discriminate].
Qed.

(** *** The singleton branch *)


(** The decoder processes of [extractFrame]: none when the URL is refused or
    the scratch directory cannot be prepared, otherwise the one seek command. *)
Lemma extractFrame_trace (E : Env) (url : string) (ts : Z) :
  trace (FfmpegUtil.extractFrame E url ts) =
  if isValidVideoUrl E url && isOk (ensureTempDir E)
  then [FfmpegUtil.seekCall E url ts] else [].
Proof.
  unfold FfmpegUtil.extractFrame, FfmpegUtil.seekCall, trace, throw.
  destruct (isValidVideoUrl E url); simpl; [| reflexivity].
  destruct (ensureTempDir E) as [[]|e]; reflexivity.
Qed.

(** Routing: for a singleton request the batch method runs [extractFrame] and
    nothing else, so both start the same processes (never the image2pipe
    command) and one fails exactly when the other does, with the same error. *)
Lemma singleton_routes_to_extractFrame (E : Env) (url : string) (ts : Z) :
  isValidVideoUrl E url = true ->
  trace (Runtime.extractMultipleFrames E url [ts])
  = trace (FfmpegUtil.extractFrame E url ts) /\
  forall e,
    outcome (Runtime.extractMultipleFrames E url [ts]) = Err e <->
    outcome (FfmpegUtil.extractFrame E url ts) = Err e.
Proof.
  intros Hurl. unfold Runtime.extractMultipleFrames. rewrite Hurl. simpl.
  unfold bind, ret, trace, outcome.
  destruct (FfmpegUtil.extractFrame E url ts) as [t [frame|e0]]; simpl.
  - split; [now rewrite app_nil_r |]. intros e. split; discriminate.
  - split; [reflexivity |]. intros e. split; intros H; injection H as ->; reflexivity.
Qed.

(** Had [extractFrame] resolved the object that the branch destructures, the
    two reads would give the frame and the duration. *)
Lemma get_frameWithDuration (frame : Buffer) (ms : Z) :
  Runtime.get (Runtime.frameWithDuration frame ms) "frameBuffer" = Runtime.Buf frame /\
  Runtime.get (Runtime.frameWithDuration frame ms) "ffmpegMs" = Runtime.Num ms.
Proof. split; reflexivity. Qed.



(* ================================================================== *)
(** ** The select expression *)

Section SelectExpression.






(** *** Characters and lengths of [toFixed] *)












(** *** Decimal digits write the number they render *)

Lemma valueFrom_app (a b : string) :
  forall acc, valueFrom acc (a ++ b) = valueFrom (valueFrom acc a) b.
Proof. induction a as [|c a IH]; intros acc; simpl; [reflexivity | apply IH]. Qed.



Lemma digit_decimal (d : Z) :
  0 <= d < 10 ->
  exists c, JS.digit d = String c "" /\
            isDecimalDigit c = true /\ digitValue c = d.
Proof.
  intros Hd.
  assert (H : d = 0 \/ d = 1 \/ d = 2 \/ d = 3 \/ d = 4 \/
              d = 5 \/ d = 6 \/ d = 7 \/ d = 8 \/ d = 9) by lia.
  repeat (destruct H as [-> | H]); try subst d;
    eexists; repeat split; reflexivity.
Qed.

Lemma radix_digits_decimal (fuel : nat) :
  forall n, 0 <= n < 2 ^ Z.of_nat fuel ->
    allChars isDecimalDigit (JS.radix_digits 10 fuel n) = true /\
    decimalValue (JS.radix_digits 10 fuel n) = n.
Proof.
  unfold decimalValue.
  induction fuel as [|fuel IH]; intros n Hn.
  - simpl in *. split; [reflexivity | lia].
  - rewrite Nat2Z.inj_succ, Z.pow_succ_r in Hn by lia.
    simpl. destruct (n <? 10) eqn:Hlt.
    + apply Z.ltb_lt in Hlt.
      destruct (digit_decimal n) as (c & -> & Hc & Hv); [lia |].
      simpl. rewrite Hc, Hv. split; reflexivity.
    + apply Z.ltb_ge in Hlt.
      assert (Hq : 0 <= n / 10 < 2 ^ Z.of_nat fuel).
      { split; [apply Z.div_pos; lia |].
        apply Z.div_lt_upper_bound; lia. }
      destruct (IH (n / 10) Hq) as [Hchars Hval].
      destruct (digit_decimal (n mod 10)) as (c & Hd & Hc & Hv).
      { apply Z.mod_pos_bound. lia. }
      rewrite Hd, allChars_append, valueFrom_app, Hchars, Hval. simpl.
      rewrite Hc, Hv. split; [reflexivity |].
      pose proof (Z.div_mod n 10). lia.
Qed.

(** The fuel of [Number_toString] is enough: the digits write [n]. *)
Lemma Number_toString_decimal (n : Z) :
  0 <= n ->
  allChars isDecimalDigit (JS.Number_toString 10 n) = true /\
  decimalValue (JS.Number_toString 10 n) = n.
Proof.
  intros Hn. unfold JS.Number_toString.
  replace (n <? 0) with false by (symmetry; apply Z.ltb_ge; lia).
  apply radix_digits_decimal. split; [exact Hn |].
  unfold JS.digits_fuel.
  rewrite Nat2Z.inj_succ, Z2Nat.id by apply Z.log2_nonneg.
  destruct (Z.eq_dec n 0) as [-> | Hne]; [reflexivity |].
  apply Z.log2_spec. lia.
Qed.


(** *** What [toFixed 3] writes *)





End SelectExpression.

(** The expression of two integer timestamps and of one fractional, and of a
    timestamp so large that [ms / 1000 - 0.01] is no longer the double nearest
    to [(ms - 10) / 1000]. *)
Example selectExpression_doubles :
  SelectFilter.selectExpression DemoNumbers.timestampsMs
  = Some "(gte(t\,0.990)*lte(t\,1.010))+(gte(t\,2.490)*lte(t\,2.510))+(gte(t\,0.024)*lte(t\,0.044))" /\
  SelectFilter.rangeTest (SelectFilter.toSeconds DemoNumbers.largeMs)
  = Some "(gte(t\,9007199254740.980)*lte(t\,9007199254741.000))".
Proof. split; vm_compute; reflexivity. Qed.




(* ================================================================== *)
(** * Further properties *)

(** ** parseJpegFrames: what happens to the bytes *)

Section ParseBytes.

Import FfmpegUtil.

Lemma firstn_plus {A} (a c : nat) (l : list A) :
  firstn (a + c) l = (firstn a l ++ firstn c (skipn a l))%list.
Proof.
  revert l. induction a as [|a IH]; intros l; simpl; [reflexivity |].
  destruct l as [|x l]; simpl.
  - now rewrite firstn_nil.
  - now rewrite IH.
Qed.

Lemma subarray_cat (b : Buffer) (s m e : nat) :
  (s <= m)%nat -> (m <= e)%nat ->
  (subarray b s m ++ subarray b m e)%list = subarray b s e.
Proof.
  intros Hsm Hme. unfold subarray.
  replace (e - s)%nat with ((m - s) + (e - m))%nat by lia.
  rewrite firstn_plus, skipn_skipn.
  replace (m - s + s)%nat with m by lia. reflexivity.
Qed.

Lemma subarray_empty (b : Buffer) (s : nat) : subarray b s s = [].
Proof. unfold subarray. now rewrite Nat.sub_diag. Qed.

Lemma scan_step_cat (b : Buffer) (i : nat) (st : scan) :
  scan_cat_inv b i st -> scan_cat_inv b (S i) (scan_step b st i).
Proof.
  intros (Hlt & Hnil & s & Hs & Hcat). unfold scan_step, scan_cat_inv.
  destruct (soi_at b i) eqn:Hi.
  - destruct ((currentFrameStart st <? i)%nat && (0 <? currentFrameStart st)%nat)
      eqn:Hc; simpl.
    + apply andb_true_iff in Hc. destruct Hc as [Hc1 Hc2].
      apply Nat.ltb_lt in Hc1, Hc2.
      split; [right; lia |]. split; [intros ->; lia |].
      exists s. split; [lia |].
      rewrite concat_app, Hcat. simpl. rewrite app_nil_r.
      apply subarray_cat; lia.
    + assert (H0 : currentFrameStart st = 0%nat).
      { apply andb_false_iff in Hc. destruct Hc as [Hc | Hc].
        - apply Nat.ltb_ge in Hc. destruct Hlt; lia.
        - apply Nat.ltb_ge in Hc. lia. }
      split; [right; lia |]. split; [intros _; now apply Hnil |].
      exists i. split; [lia |].
      rewrite (Hnil H0). simpl. now rewrite subarray_empty.
  - split; [destruct Hlt; [now left | right; lia] |].
    split; [exact Hnil |]. exists s. split; assumption.
Qed.

Lemma fold_scan_cat (b : Buffer) (n start : nat) (st : scan) :
  scan_cat_inv b start st ->
  scan_cat_inv b (start + n) (fold_left (scan_step b) (seq start n) st).
Proof.
  revert start st. induction n as [|n IH]; intros start st H; simpl.
  - now rewrite Nat.add_0_r.
  - replace (start + S n)%nat with (S start + n)%nat by lia.
    apply IH. now apply scan_step_cat.
Qed.

End ParseBytes.

(** X1. The frames returned by [parseJpegFrames], concatenated in order, are
    a suffix of the input buffer: bytes are never duplicated, reordered or
    invented; only a prefix of the stream can be left out. *)
Theorem parseJpegFrames_suffix :
  forall b : Buffer,
    exists dropped, b = (dropped ++ List.concat (FfmpegUtil.parseJpegFrames b))%list.
Proof.
  intros b. rewrite parseJpegFrames_scanFrames. unfold FfmpegUtil.scanFrames.
  fold scan_init.
  assert (Hinv : scan_cat_inv b (List.length b - 1)
                   (fold_left (FfmpegUtil.scan_step b) (FfmpegUtil.scan_indices b)
                      scan_init)).
  { unfold FfmpegUtil.scan_indices.
    apply (fold_scan_cat b (List.length b - 1) 0 scan_init).
    split; [now left |]. split; [reflexivity |].
    exists 0%nat. split; [simpl; lia | reflexivity]. }
  set (st := fold_left _ _ _) in *.
  destruct Hinv as (Hlt & Hnil & s & Hs & Hcat).
  destruct (FfmpegUtil.currentFrameStart st <? List.length b)%nat eqn:Hc.
  - exists (firstn s b).
    rewrite concat_app, Hcat. simpl. rewrite app_nil_r.
    unfold FfmpegUtil.subarray, FfmpegUtil.subarray_from.
    replace (skipn (FfmpegUtil.currentFrameStart st) b)
      with (skipn (FfmpegUtil.currentFrameStart st - s) (skipn s b))
      by (rewrite skipn_skipn; f_equal; lia).
    now rewrite firstn_skipn, firstn_skipn.
  - apply Nat.ltb_ge in Hc.
    assert (H0 : FfmpegUtil.currentFrameStart st = 0%nat) by (destruct Hlt; lia).
    rewrite (Hnil H0). exists b. simpl. now rewrite app_nil_r.
Qed.

(** X2. When the stream starts with a non-empty run of bytes that contains no
    SOI marker, that run is discarded and every frame after it is returned,
    byte-identical and in order (the first-frame loss only affects a frame
    that starts at offset 0). *)
Theorem parseJpegFrames_after_prefix :
  forall (junk f : Buffer) (fs : list Buffer),
    junk <> [] ->
    ~ hasSOI junk ->
    Forall soiOnlyAtStart (f :: fs) ->
    FfmpegUtil.parseJpegFrames (junk ++ List.concat (f :: fs))%list = f :: fs.
Proof.
  intros junk f fs Hjunk Hno Hall.
  rewrite parseJpegFrames_scanFrames.
  set (b := (junk ++ List.concat (f :: fs))%list).
  assert (Hb : b = (junk ++ f ++ List.concat fs)%list) by reflexivity.
  destruct (concat_frames_rest f fs Hall) as [Hstart Hrlen].
  assert (Hjlen : (0 < List.length junk)%nat).
  { destruct junk; [contradiction | simpl; lia]. }
  assert (Hblen : List.length b
                  = (List.length junk + List.length (f ++ List.concat fs)%list)%nat).
  { rewrite Hb. apply length_app. }
  change (FfmpegUtil.scanFrames b) with
    (finish b (fold_left (FfmpegUtil.scan_step b) (FfmpegUtil.scan_indices b) scan_init)).
  unfold FfmpegUtil.scan_indices.
  replace (List.length b - 1)%nat
    with (List.length junk + (1 + (List.length b - 1 - S (List.length junk))))%nat
    by lia.
  rewrite !seq_app, !fold_left_app.
  rewrite (fold_scan_no_soi b (seq 0 (List.length junk))).
  2:{ intros i Hi. apply in_seq in Hi.
      destruct (FfmpegUtil.soi_at b i) eqn:Hs; [| reflexivity].
      exfalso. apply soi_at_spec in Hs. destruct Hs as [H1 H2]. rewrite Hb in H1, H2.
      destruct (Nat.lt_ge_cases (i + 1) (List.length junk)) as [Hin | Hout].
      - rewrite nth_error_app1 in H1, H2 by lia.
        apply Hno. exists i. apply soi_at_spec. split; assumption.
      - rewrite nth_error_app2 in H2 by lia.
        replace (i + 1 - List.length junk)%nat with 0%nat in H2 by lia.
        destruct Hstart as [r Hr]. rewrite Hr in H2. discriminate. }
  simpl seq. simpl fold_left at 2.
  assert (Hsoi : FfmpegUtil.soi_at b (List.length junk) = true).
  { rewrite Hb.
    replace (List.length junk) with (List.length junk + 0)%nat at 1 by lia.
    rewrite soi_at_app_shift.
    destruct Hstart as [r Hr]. rewrite Hr. reflexivity. }
  unfold FfmpegUtil.scan_step at 2. rewrite Hsoi. unfold scan_init. simpl.
  rewrite andb_false_r.
  pose proof (scan_from_positive fs f junk [] b Hall Hjlen Hb) as Hgo.
  replace (List.length junk + 1)%nat with (S (List.length junk)) by lia.
  exact Hgo.
Qed.

Lemma parseJpegFrames_after_prefix_witness :
  FfmpegUtil.parseJpegFrames ([x00; xff] ++ List.concat [jpeg x11; jpeg x22])%list
  = [jpeg x11; jpeg x22].
Proof.
  apply parseJpegFrames_after_prefix.
  - discriminate.
  - intros [i H]. pose proof (soi_at_bound _ _ H) as Hb. simpl in Hb.
    destruct i as [|i]; [vm_compute in H; discriminate | lia].
  - apply (jpegs_soiOnlyAtStart [x11; x22]).
Defined.

(* ================================================================== *)
(** ** The repository's batch method: processes, durations, failures *)

Lemma extractColorsFromFrames_trace (E : Env) (url : string) (tss : list Z) :
  trace (VideoProcessorRepository.extractColorsFromFrames E url tss)
  = trace (FfmpegUtil.extractMultipleFrames E url tss).
Proof.
  rewrite extractColorsFromFrames_unfold. unfold trace.
  destruct (FfmpegUtil.extractMultipleFrames E url tss) as [t [[m ms]|e]];
    reflexivity.
Qed.

Lemma extractMultipleFrames_trace (E : Env) (url : string) (tss : list Z) :
  trace (FfmpegUtil.extractMultipleFrames E url tss) =
  if isValidVideoUrl E url then
    match tss with
    | [] => []
    | [t0] => if isOk (ensureTempDir E) then [FfmpegUtil.seekCall E url t0] else []
    | _ => [FfmpegUtil.batchCall url tss]
    end
  else [].
Proof.
  unfold FfmpegUtil.extractMultipleFrames.
  destruct (isValidVideoUrl E url) eqn:Hurl; simpl; [| reflexivity].
  destruct tss as [|t0 [|t1 ts]]; simpl; try reflexivity.
  pose proof (extractFrame_trace E url t0) as Ht. rewrite Hurl in Ht. simpl in Ht.
  unfold trace, bind, ret in *.
  destruct (FfmpegUtil.extractFrame E url t0) as [t [frame|e]]; simpl in *;
    rewrite ?app_nil_r; exact Ht.
Qed.

(** X3. A call of [extractColorsFromFrames] starts at most one decoder
    process, whatever the number of timestamps and whatever the decoder or
    the palette extraction answer: exactly one when the URL is accepted and
    either two or more timestamps are requested, or one timestamp is requested
    and the scratch directory of [extractFrame] can be prepared; none
    otherwise. *)
Theorem one_decoder_process_per_call :
  forall (E : Env) (url : string) (tss : list Z),
    List.length (trace (VideoProcessorRepository.extractColorsFromFrames E url tss))
    = if isValidVideoUrl E url &&
         ((2 <=? List.length tss)%nat
          || ((List.length tss =? 1)%nat && isOk (ensureTempDir E)))
      then 1%nat else 0%nat.
Proof.
  intros E url tss.
  rewrite extractColorsFromFrames_trace, extractMultipleFrames_trace.
  destruct (isValidVideoUrl E url); [| reflexivity].
  destruct tss as [|t0 [|t1 ts]]; simpl; [reflexivity | | reflexivity].
  destruct (isOk (ensureTempDir E)); reflexivity.
Qed.

(** X4. In a successful call for two or more timestamps all results carry the
    same [ffmpegMs]: the measured duration of the single image2pipe process of
    that call. *)
Theorem results_share_decoder_duration :
  forall (E : Env) (url : string) (tss : list Z) (results : list ColorResult),
    (2 <= List.length tss)%nat ->
    outcome (VideoProcessorRepository.extractColorsFromFrames E url tss) = Ok results ->
    trace (VideoProcessorRepository.extractColorsFromFrames E url tss)
    = [FfmpegUtil.batchCall url tss] /\
    forall r, In r results ->
      ffmpegMs r = ffmpegElapsed E (FfmpegUtil.batchCall url tss).
Proof.
  intros E url tss results Hlen Hres.
  destruct (extractColorsFromFrames_Ok E url tss results Hres)
    as (m & ms & rs & Hm & Hall & ->).
  assert (Hurl : isValidVideoUrl E url = true).
  { unfold FfmpegUtil.extractMultipleFrames, outcome, throw in Hm.
    destruct (isValidVideoUrl E url); [reflexivity | discriminate]. }
  rewrite (extractMultipleFrames_batch E url tss Hurl Hlen) in Hm.
  unfold outcome in Hm. cbn [snd] in Hm.
  assert (Hms : ms = ffmpegElapsed E (FfmpegUtil.batchCall url tss)).
  { destruct (runDecoder E (FfmpegUtil.batchCall url tss)) as [stream|e];
      [| discriminate].
    destruct (FfmpegUtil.parseJpegFrames stream) as [|f fs]; [discriminate |].
    now injection Hm as _ <-. }
  split.
  - rewrite extractColorsFromFrames_trace, extractMultipleFrames_trace, Hurl.
    destruct tss as [|t0 [|t1 ts]]; simpl in Hlen; try lia. reflexivity.
  - intros r Hr.
    apply (Permutation_in r (Array_sort_perm timestamp rs)) in Hr.
    destruct (Forall2_In_r _ _ _ r Hall Hr) as ([k f] & _ & Hx).
    apply colorOfEntry_Ok in Hx. destruct Hx as (_ & Hx & _). now rewrite Hx.
Qed.

Lemma results_share_decoder_duration_witness :
  trace (VideoProcessorRepository.extractColorsFromFrames
           (demoEnv stream4) demoUrl [5000; 1000; 3000])
  = [FfmpegUtil.batchCall demoUrl [5000; 1000; 3000]] /\
  forall r,
    In r [mkResult 1000 "#330000"; mkResult 3000 "#440000"; mkResult 5000 "#220000"] ->
    ffmpegMs r
    = ffmpegElapsed (demoEnv stream4) (FfmpegUtil.batchCall demoUrl [5000; 1000; 3000]).
Proof.
  apply (results_share_decoder_duration (demoEnv stream4) demoUrl [5000; 1000; 3000]).
  - simpl. lia.
  - vm_compute. reflexivity.
Defined.

Lemma Promise_all_isOk {A} (ps : list (result A)) :
  isOk (JS.Promise_all ps) = forallb isOk ps.
Proof.
  induction ps as [|[a|e] ps IH]; simpl; try reflexivity.
  rewrite <- IH. destruct (JS.Promise_all ps); reflexivity.
Qed.

(** X5. Fail-fast, and nothing else: once the frames are extracted, the batch
    call succeeds exactly when the colour extraction succeeds on every frame
    of the map; one failing frame fails the whole call. *)
Theorem batch_succeeds_iff_every_frame_does :
  forall (E : Env) (url : string) (tss : list Z) (m : JS.Map Buffer) (ms : Z),
    outcome (FfmpegUtil.extractMultipleFrames E url tss) = Ok (m, ms) ->
    isOk (outcome (VideoProcessorRepository.extractColorsFromFrames E url tss))
    = forallb (fun entry => isOk (ColorUtil.extractDominantColor E (snd entry))) m.
Proof.
  intros E url tss m ms Hm.
  rewrite extractColorsFromFrames_unfold.
  unfold outcome in *.
  destruct (FfmpegUtil.extractMultipleFrames E url tss) as [t r]. simpl in Hm.
  subst r. simpl.
  transitivity (isOk (JS.Promise_all
                        (map (VideoProcessorRepository.colorOfEntry E ms) m))).
  { destruct (JS.Promise_all _); reflexivity. }
  rewrite Promise_all_isOk.
  induction m as [|[k f] m IH]; simpl; [reflexivity |].
  rewrite IH. f_equal.
  destruct (ColorUtil.extractDominantColor E f); reflexivity.
Qed.

Lemma batch_succeeds_iff_every_frame_does_witness :
  isOk (outcome (VideoProcessorRepository.extractColorsFromFrames
                   (paletteEnv {| Vibrant := None; Muted := None; DarkVibrant := None;
                                  DarkMuted := None; LightVibrant := None;
                                  LightMuted := None |})
                   demoUrl [1000]))
  = false.
Proof.
  refine (batch_succeeds_iff_every_frame_does _ demoUrl [1000] [(1000, [])] 0 _).
  reflexivity.
Defined.

(** *** rgbToHex outside the channel range *)

Lemma digit_length (d : Z) : String.length (JS.digit d) = 1%nat.
Proof.
  destruct d as [|p|p]; [reflexivity | | reflexivity].
  do 4 (destruct p as [p|p|]; try reflexivity).
Qed.

Lemma radix_digits_length_pos (radix : Z) (fuel : nat) (n : Z) :
  (1 <= String.length (JS.radix_digits radix (S fuel) n))%nat.
Proof.
  simpl. destruct (n <? radix).
  - rewrite digit_length. lia.
  - rewrite length_append, digit_length. lia.
Qed.

Lemma Number_toString_length_pos (radix n : Z) :
  (1 <= String.length (JS.Number_toString radix n))%nat.
Proof.
  unfold JS.Number_toString, JS.digits_fuel. destruct (n <? 0).
  - rewrite length_append. simpl. lia.
  - apply radix_digits_length_pos.
Qed.

Lemma toUpperCase_length (s : string) :
  String.length (JS.toUpperCase s) = String.length s.
Proof. induction s as [|c s IH]; simpl; [reflexivity | now rewrite IH]. Qed.

Lemma toHex_length (v : Q) : (2 <= String.length (ColorUtil.toHex v))%nat.
Proof.
  unfold ColorUtil.toHex.
  pose proof (Number_toString_length_pos 16 (JS.Math_round v)) as H.
  destruct (String.length (JS.Number_toString 16 (JS.Math_round v)) =? 1)%nat eqn:Hl.
  - rewrite length_append. simpl. lia.
  - apply Nat.eqb_neq in Hl. lia.
Qed.

Lemma radix_digits_unfold (radix : Z) (fuel : nat) (n : Z) :
  JS.radix_digits radix (S fuel) n =
  if n <? radix then JS.digit n
  else JS.radix_digits radix fuel (n / radix) ++ JS.digit (n mod radix).
Proof. reflexivity. Qed.

Lemma hex_three_digits (n : Z) :
  256 <= n -> (3 <= String.length (JS.Number_toString 16 n))%nat.
Proof.
  intros Hn. unfold JS.Number_toString, JS.digits_fuel.
  replace (n <? 0) with false by (symmetry; apply Z.ltb_ge; lia).
  assert (Hlog : 8 <= Z.log2 n).
  { change 8 with (Z.log2 256). apply Z.log2_le_mono. exact Hn. }
  replace (Z.to_nat (Z.log2 n)) with (S (S (Z.to_nat (Z.log2 n - 2)))) by lia.
  set (k := Z.to_nat (Z.log2 n - 2)).
  rewrite (radix_digits_unfold 16 (S (S k)) n).
  replace (n <? 16) with false by (symmetry; apply Z.ltb_ge; lia).
  assert (Hq : 16 <= n / 16).
  { apply Z.div_le_lower_bound; lia. }
  rewrite (radix_digits_unfold 16 (S k) (n / 16)).
  replace (n / 16 <? 16) with false by (symmetry; apply Z.ltb_ge; lia).
  rewrite !length_append, !digit_length. subst k.
  pose proof (radix_digits_length_pos 16 (Z.to_nat (Z.log2 n - 2)) (n / 16 / 16)).
  lia.
Qed.

(** X6. [rgbToHex] does not clamp: a red channel that rounds to 256 or more
    (that is, from 255.5 on) is written with at least three hexadecimal
    digits, so the result has more than the 7 characters of a colour. *)
Theorem rgbToHex_does_not_clamp :
  forall r g b : Q,
    (511 # 2 <= r)%Q ->
    256 <= JS.Math_round r /\
    (8 <= String.length (ColorUtil.rgbToHex r g b))%nat.
Proof.
  intros r g b Hr.
  assert (HR : 256 <= JS.Math_round r).
  { unfold JS.Math_round. change 256 with (Qfloor ((511 # 2) + (1 # 2))).
    apply Qfloor_resp_le. now apply Qplus_le_l. }
  split; [exact HR |].
  unfold ColorUtil.rgbToHex.
  rewrite toUpperCase_length, !length_append. simpl.
  pose proof (toHex_length g) as Hg. pose proof (toHex_length b) as Hb.
  assert (Hred : (3 <= String.length (ColorUtil.toHex r))%nat).
  { unfold ColorUtil.toHex. pose proof (hex_three_digits _ HR) as H3.
    destruct (String.length (JS.Number_toString 16 (JS.Math_round r)) =? 1)%nat eqn:Hl.
    - apply Nat.eqb_eq in Hl. lia.
    - exact H3. }
  lia.
Qed.

Lemma rgbToHex_does_not_clamp_witness :
  256 <= JS.Math_round (511 # 2) /\
  (8 <= String.length (ColorUtil.rgbToHex (511 # 2) 0 0))%nat.
Proof.
  apply rgbToHex_does_not_clamp. unfold Qle. simpl. lia.
Defined.

(* ================================================================== *)
(** ** Strings: prefixes, inclusion, lower case *)

Section StringSearch.

Import JSString.

Lemma prefix_app (a b : string) : prefix a (a ++ b) = true.
Proof.
  induction a as [|c a IH]; simpl; [now destruct b |].
  destruct (ascii_dec c c) as [_ | Hne]; [exact IH | contradiction].
Qed.

Lemma prefix_split (a s : string) :
  prefix a s = true -> exists b, s = a ++ b.
Proof.
  revert s. induction a as [|c a IH]; intros s H.
  - now exists s.
  - destruct s as [|d s]; [discriminate |]. simpl in H.
    destruct (ascii_dec c d) as [-> | _]; [| discriminate].
    destruct (IH s H) as [b ->]. now exists b.
Qed.

Lemma includes_unfold (sub s : string) :
  includes sub s =
  if prefix sub s then true
  else match s with
       | EmptyString => false
       | String _ s' => includes sub s'
       end.
Proof. destruct s; reflexivity. Qed.

Lemma includes_app (sub x y : string) : includes sub (x ++ sub ++ y) = true.
Proof.
  induction x as [|c x IH]; simpl append.
  - rewrite includes_unfold, prefix_app. reflexivity.
  - rewrite includes_unfold. destruct (prefix sub _); [reflexivity | exact IH].
Qed.

Lemma includes_split (sub s : string) :
  includes sub s = true -> exists x y, s = x ++ sub ++ y.
Proof.
  induction s as [|c s IH]; rewrite includes_unfold.
  - destruct (prefix sub "") eqn:Hp; [| discriminate].
    intros _. destruct (prefix_split _ _ Hp) as [b Hb]. now exists "", b.
  - destruct (prefix sub (String c s)) eqn:Hp.
    + intros _. destruct (prefix_split _ _ Hp) as [b Hb]. now exists "", b.
    + intros H. destruct (IH H) as (x & y & ->). now exists (String c x), y.
Qed.

Lemma toLowerCase_append (a b : string) :
  toLowerCase (a ++ b) = toLowerCase a ++ toLowerCase b.
Proof. induction a as [|c a IH]; simpl; [reflexivity | now rewrite IH]. Qed.

(** A word occurring in a string, in any letter case, is found in its lower
    case form. *)
Lemma includes_lower (w a b : string) :
  includes (toLowerCase w) (toLowerCase (a ++ w ++ b)) = true.
Proof. rewrite !toLowerCase_append. apply includes_app. Qed.

Lemma drop_app (a b : string) : drop (String.length a) (a ++ b) = b.
Proof. induction a as [|c a IH]; simpl; [now destruct b | exact IH]. Qed.

Lemma drop_suffix (n : nat) (s : string) : exists a, s = a ++ drop n s.
Proof.
  revert s. induction n as [|n IH]; intros s; simpl.
  - now exists "".
  - destruct s as [|c s]; [now exists "" |].
    destruct (IH s) as [a Ha]. exists (String c a). simpl. now rewrite <- Ha.
Qed.

Lemma endsWith_split (suffix s : string) :
  endsWith suffix s = true -> exists a, s = a ++ suffix.
Proof.
  unfold endsWith. intros H. apply andb_true_iff in H. destruct H as [_ H].
  apply String.eqb_eq in H.
  destruct (drop_suffix (String.length s - String.length suffix) s) as [a Ha].
  exists a. now rewrite H in Ha.
Qed.

End StringSearch.

(* ================================================================== *)
(** ** URL validation and resolution *)

Lemma someIncluded_word (patterns : list string) (w a b : string) :
  In (JSString.toLowerCase w) patterns ->
  FfmpegUrl.someIncluded patterns (JSString.toLowerCase (a ++ w ++ b)) = true.
Proof.
  intros Hin. unfold FfmpegUrl.someIncluded. apply existsb_exists.
  exists (JSString.toLowerCase w). split; [exact Hin | apply includes_lower].
Qed.

(** X7. [isValidVideoUrl] accepts every URL the platform parser accepts that
    contains, anywhere (path, query string, host) and in any letter case, one
    of the listed video extensions or trusted-domain markers. *)
Theorem isValidVideoUrl_marker_anywhere :
  forall (urlParses : string -> bool) (a w b : string),
    urlParses (a ++ w ++ b) = true ->
    In (JSString.toLowerCase w)
       (FfmpegUrl.videoExtensions ++ FfmpegUrl.trustedDomains)%list ->
    FfmpegUrl.isValidVideoUrl urlParses (a ++ w ++ b) = true.
Proof.
  intros urlParses a w b Hparse Hin.
  unfold FfmpegUrl.isValidVideoUrl. rewrite Hparse. simpl negb. cbv iota.
  apply in_app_or in Hin. destruct Hin as [Hext | Hdom].
  - now rewrite (someIncluded_word _ w a b Hext).
  - rewrite (someIncluded_word _ w a b Hdom).
    destruct (FfmpegUrl.someIncluded FfmpegUrl.videoExtensions _); reflexivity.
Qed.

Lemma isValidVideoUrl_marker_anywhere_witness :
  FfmpegUrl.isValidVideoUrl (fun _ => true) ("https://example.org/page?next=" ++ ".MP4" ++ "")
  = true.
Proof.
  apply isValidVideoUrl_marker_anywhere; [reflexivity |].
  simpl. now left.
Defined.

Lemma isPexelsPage_valid (urlParses : string -> bool) (u : string) :
  urlParses u = true -> FfmpegUrl.isPexelsPage u = true ->
  FfmpegUrl.isValidVideoUrl urlParses u = true.
Proof.
  intros Hparse Hpage. unfold FfmpegUrl.isPexelsPage in Hpage.
  apply andb_true_iff in Hpage. destruct Hpage as [Hp Hv].
  unfold FfmpegUrl.isValidVideoUrl. rewrite Hparse. simpl negb. cbv iota zeta.
  destruct (FfmpegUrl.someIncluded FfmpegUrl.videoExtensions _); [reflexivity |].
  destruct (FfmpegUrl.someIncluded FfmpegUrl.trustedDomains _); [reflexivity |].
  unfold FfmpegUrl.someIncluded, FfmpegUrl.supportedPages. simpl existsb.
  now rewrite Hp, Hv.
Qed.

(** X8. The resolver and the validator agree on page URLs: whenever
    [resolveVideoUrl] issues an HTTP request for a URL that the platform
    parser accepts, [isValidVideoUrl] accepts that URL. *)
Theorem resolver_requests_only_valid_urls :
  forall (urlParses : string -> bool) (httpGet : string -> result string)
         (u : string),
    urlParses u = true ->
    fst (FfmpegUrl.resolveVideoUrl httpGet u) <> [] ->
    FfmpegUrl.isValidVideoUrl urlParses u = true.
Proof.
  intros urlParses httpGet u Hparse Hreq.
  apply isPexelsPage_valid; [exact Hparse |].
  unfold FfmpegUrl.resolveVideoUrl in Hreq.
  destruct (FfmpegUrl.isPexelsPage u); [reflexivity |].
  simpl in Hreq. contradiction.
Qed.

Lemma resolver_requests_only_valid_urls_witness :
  FfmpegUrl.isValidVideoUrl (fun _ => true) pexelsPageUrl = true.
Proof.
  apply (resolver_requests_only_valid_urls (fun _ => true) demoHttpGet pexelsPageUrl).
  - reflexivity.
  - vm_compute. discriminate.
Defined.

(** *** The src pattern *)

Lemma untilQuote_split (s run : string) :
  FfmpegUrl.untilQuote s = Some run ->
  exists post, s = run ++ String FfmpegUrl.dquote post /\
               allChars noQuote run = true.
Proof.
  revert run. induction s as [|c s IH]; intros run; cbn [FfmpegUrl.untilQuote];
    [discriminate |].
  destruct (Ascii.eqb c FfmpegUrl.dquote) eqn:Hc.
  - intros H. injection H as <-. apply Ascii.eqb_eq in Hc. subst c.
    now exists s.
  - destruct (FfmpegUrl.untilQuote s) as [run'|]; [| discriminate].
    intros H. injection H as <-.
    destruct (IH run' eq_refl) as (post & -> & Hrun).
    exists post. split; [reflexivity |].
    cbn [allChars]. unfold noQuote at 1. now rewrite Hc, Hrun.
Qed.

Lemma untilQuote_app (run post : string) :
  allChars noQuote run = true ->
  FfmpegUrl.untilQuote (run ++ String FfmpegUrl.dquote post) = Some run.
Proof.
  induction run as [|c run IH].
  - intros _. reflexivity.
  - intros H. cbn [allChars] in H. apply andb_true_iff in H.
    destruct H as [Hc Hrun].
    unfold noQuote in Hc. apply negb_true_iff in Hc.
    cbn [append FfmpegUrl.untilQuote]. now rewrite Hc, (IH Hrun).
Qed.

Lemma matchHere_Some (s u : string) :
  FfmpegUrl.matchHere s = Some u ->
  exists run post,
    u = FfmpegUrl.cdnPrefix ++ run /\
    s = FfmpegUrl.srcPrefix ++ run ++ String FfmpegUrl.dquote post /\
    allChars noQuote run = true /\
    JSString.endsWith ".mp4" run = true /\
    (5 <= String.length run)%nat.
Proof.
  unfold FfmpegUrl.matchHere.
  destruct (prefix FfmpegUrl.srcPrefix s) eqn:Hp; [| discriminate].
  destruct (prefix_split _ _ Hp) as [rest ->].
  rewrite drop_app.
  destruct (FfmpegUrl.untilQuote rest) as [run|] eqn:Hq; [| discriminate].
  destruct ((5 <=? String.length run)%nat && JSString.endsWith ".mp4" run) eqn:Hc;
    [| discriminate].
  intros H. injection H as <-.
  apply andb_true_iff in Hc. destruct Hc as [Hlen Hend].
  apply Nat.leb_le in Hlen.
  destruct (untilQuote_split _ _ Hq) as (post & -> & Hrun).
  exists run, post. repeat split; assumption.
Qed.

Lemma firstSrcMatch_Some (html u : string) :
  FfmpegUrl.firstSrcMatch html = Some u ->
  exists pre run post,
    u = FfmpegUrl.cdnPrefix ++ run /\
    html = pre ++ FfmpegUrl.srcPrefix ++ run ++ String FfmpegUrl.dquote post /\
    allChars noQuote run = true /\
    JSString.endsWith ".mp4" run = true /\
    (5 <= String.length run)%nat.
Proof.
  induction html as [|c html IH]; cbn [FfmpegUrl.firstSrcMatch].
  - destruct (FfmpegUrl.matchHere "") as [u'|] eqn:Hm; [| discriminate].
    intros H. injection H as <-.
    destruct (matchHere_Some _ _ Hm) as (run & post & H1 & H2 & H3).
    exists "", run, post. split; [exact H1 |]. split; [exact H2 | exact H3].
  - destruct (FfmpegUrl.matchHere (String c html)) as [u'|] eqn:Hm.
    + intros H. injection H as <-.
      destruct (matchHere_Some _ _ Hm) as (run & post & H1 & H2 & H3).
      exists "", run, post. split; [exact H1 |]. split; [exact H2 | exact H3].
    + intros H. destruct (IH H) as (pre & run & post & H1 & -> & H3).
      exists (String c pre), run, post. split; [exact H1 |].
      split; [reflexivity | exact H3].
Qed.

Lemma matchHere_complete (run post : string) :
  allChars noQuote run = true ->
  JSString.endsWith ".mp4" run = true ->
  (5 <= String.length run)%nat ->
  FfmpegUrl.matchHere (FfmpegUrl.srcPrefix ++ run ++ String FfmpegUrl.dquote post)
  = Some (FfmpegUrl.cdnPrefix ++ run).
Proof.
  intros Hrun Hend Hlen. unfold FfmpegUrl.matchHere.
  rewrite prefix_app, drop_app, (untilQuote_app _ _ Hrun), Hend.
  replace (5 <=? String.length run)%nat with true
    by (symmetry; apply Nat.leb_le; exact Hlen).
  reflexivity.
Qed.

(** X9. The src pattern is sound and complete: [firstSrcMatch] returns a URL
    exactly when the page contains src=QUOTE followed by the cdn.pexels.com
    video prefix, a quote-free run of at least five characters ending in
    .mp4, and a closing quote; the URL returned is the prefix followed by such
    a run of the page. *)
Theorem firstSrcMatch_sound_complete :
  forall html : string,
    (forall u, FfmpegUrl.firstSrcMatch html = Some u ->
       exists pre run post,
         u = FfmpegUrl.cdnPrefix ++ run /\
         html = pre ++ FfmpegUrl.srcPrefix ++ run ++ String FfmpegUrl.dquote post /\
         allChars noQuote run = true /\
         JSString.endsWith ".mp4" run = true /\
         (5 <= String.length run)%nat) /\
    (forall pre run post,
       html = pre ++ FfmpegUrl.srcPrefix ++ run ++ String FfmpegUrl.dquote post ->
       allChars noQuote run = true ->
       JSString.endsWith ".mp4" run = true ->
       (5 <= String.length run)%nat ->
       FfmpegUrl.firstSrcMatch html <> None).
Proof.
  intros html. split; [apply firstSrcMatch_Some |].
  intros pre run post -> Hrun Hend Hlen.
  induction pre as [|c pre IH].
  - cbn [append].
    pose proof (matchHere_complete run post Hrun Hend Hlen) as Hm.
    destruct (FfmpegUrl.srcPrefix ++ run ++ String FfmpegUrl.dquote post) eqn:Hs;
      cbn [FfmpegUrl.firstSrcMatch]; rewrite Hm; discriminate.
  - cbn [append FfmpegUrl.firstSrcMatch].
    destruct (FfmpegUrl.matchHere _); [discriminate | exact IH].
Qed.

Lemma firstSrcMatch_sound_complete_witness :
  FfmpegUrl.firstSrcMatch pexelsPageHtml <> None.
Proof.
  apply (proj2 (firstSrcMatch_sound_complete pexelsPageHtml)
           "<video " "waves-hd.mp4" "></video>"); try reflexivity.
  simpl. lia.
Defined.

(** X10. [resolveVideoUrl] never fails and makes at most one HTTP request, to
    the URL itself, and none unless the URL is a Pexels video page; it returns
    either the URL unchanged (not a page, request failed, no match) or a
    cdn.pexels.com .mp4 address found in the fetched page, and such an address
    always passes the extension test of [isValidVideoUrl]. *)
Theorem resolveVideoUrl_result :
  forall (urlParses : string -> bool) (httpGet : string -> result string)
         (u : string),
    let requests := fst (FfmpegUrl.resolveVideoUrl httpGet u) in
    let resolved := snd (FfmpegUrl.resolveVideoUrl httpGet u) in
    (requests = [] \/ requests = [u]) /\
    (FfmpegUrl.isPexelsPage u = false -> requests = [] /\ resolved = u) /\
    (~ isOk (httpGet u) = true -> resolved = u) /\
    (resolved <> u ->
       (exists html run,
          httpGet u = Ok html /\
          resolved = FfmpegUrl.cdnPrefix ++ run /\
          JSString.includes
            (FfmpegUrl.srcPrefix ++ run ++ String FfmpegUrl.dquote "") html = true /\
          JSString.endsWith ".mp4" run = true) /\
       FfmpegUrl.isValidVideoUrl urlParses resolved = urlParses resolved).
Proof.
  intros urlParses httpGet u requests resolved. subst requests resolved.
  unfold FfmpegUrl.resolveVideoUrl.
  destruct (FfmpegUrl.isPexelsPage u) eqn:Hpage; cbn [fst snd].
  2:{ split; [now left |]. split; [now split |].
      split; [reflexivity |]. intros H. exfalso. now apply H. }
  destruct (httpGet u) as [html|e] eqn:Hget; cbn [fst snd].
  2:{ split; [now right |]. split; [discriminate |].
      split; [reflexivity |]. intros H. exfalso. now apply H. }
  destruct (FfmpegUrl.firstSrcMatch html) as [direct|] eqn:Hm; cbn [fst snd].
  2:{ split; [now right |]. split; [discriminate |].
      split; [reflexivity |]. intros H. exfalso. now apply H. }
  destruct (firstSrcMatch_Some _ _ Hm) as (pre & run & post & -> & Hhtml & Hq & Hend & Hlen).
  split; [now right |]. split; [discriminate |].
  split; [intros H; exfalso; now apply H |].
  intros _. split.
  - exists html, run. split; [reflexivity |]. split; [reflexivity |].
    split; [| exact Hend].
    rewrite Hhtml.
    replace (FfmpegUrl.srcPrefix ++ run ++ String FfmpegUrl.dquote post)
      with ((FfmpegUrl.srcPrefix ++ run ++ String FfmpegUrl.dquote "") ++ post)
      by (rewrite !append_assoc; reflexivity).
    apply includes_app.
  - destruct (endsWith_split _ _ Hend) as [a ->].
    unfold FfmpegUrl.isValidVideoUrl.
    destruct (urlParses _); [| reflexivity]. simpl negb. cbv iota zeta.
    assert (Hext : FfmpegUrl.someIncluded FfmpegUrl.videoExtensions
                     (JSString.toLowerCase (FfmpegUrl.cdnPrefix ++ a ++ ".mp4")) = true).
    { pose proof (someIncluded_word FfmpegUrl.videoExtensions ".mp4"
                    (FfmpegUrl.cdnPrefix ++ a) "") as H.
      rewrite append_nil_r, append_assoc in H. apply H. simpl. now left. }
    now rewrite Hext.
Qed.

Lemma resolveVideoUrl_result_witness :
  FfmpegUrl.isValidVideoUrl (fun _ => true)
    (snd (FfmpegUrl.resolveVideoUrl demoHttpGet pexelsPageUrl))
  = true.
Proof.
  refine (proj2 (proj2 (proj2 (proj2 (resolveVideoUrl_result (fun _ => true)
                                        demoHttpGet pexelsPageUrl))) _)).
  vm_compute. discriminate.
Defined.

(* ================================================================== *)
(** ** getVideoDuration *)

Lemma Math_floor_bounds (x : JSNumber.number) (q : Q) :
  JSNumber.exact x = Some q ->
  exists ms, JSNumber.Math_floor x = JSNumber.Integer ms /\
             (inject_Z ms <= q)%Q /\ (q < inject_Z (ms + 1))%Q.
Proof.
  intros Hq. unfold JSNumber.Math_floor. rewrite Hq.
  exists (Qfloor q). split; [reflexivity |].
  split; [apply Qfloor_le | apply Qlt_floor].
Qed.

(** The seconds-to-milliseconds product is the double-precision one: 1.001 s
    are 1000 ms, and 4.35 s are 4350 ms although the double nearest to 4.35
    lies below it. *)
Example getVideoDuration_rounds_product :
  snd (FfmpegUrl.getVideoDuration (fun _ => true) demoHttpGet
         (fun _ => Ok (Some DemoNumbers.durationSeconds)) demoUrl)
  = Ok (JSNumber.Integer 1000) /\
  snd (FfmpegUrl.getVideoDuration (fun _ => true) demoHttpGet
         (fun _ => Ok (Some DemoNumbers.otherDurationSeconds)) demoUrl)
  = Ok (JSNumber.Integer 4350) /\
  (exists q, JSNumber.exact DemoNumbers.otherDurationSeconds = Some q /\
             Qfloor (q * inject_Z 1000) = 4349).
Proof.
  split; [vm_compute; reflexivity |].
  split; [vm_compute; reflexivity |].
  eexists. split; [vm_compute; reflexivity | vm_compute; reflexivity].
Qed.

(** X11. [getVideoDuration] rejects an invalid URL before any HTTP request or
    probe; when it succeeds the URL was valid, ffprobe reported a truthy
    duration [d] for the resolved URL, and the result is [Math.floor] of the
    double-precision product [d * 1000]: when that product is finite, the
    whole number of milliseconds just below or at its value.  A duration that
    is zero (or NaN) is reported as an error, never as 0 ms. *)
Theorem getVideoDuration_result :
  forall (urlParses : string -> bool) (httpGet : string -> result string)
         (ffprobe : string -> result (option JSNumber.number)) (u : string),
    let resolved := snd (FfmpegUrl.resolveVideoUrl httpGet u) in
    let run := FfmpegUrl.getVideoDuration urlParses httpGet ffprobe u in
    (FfmpegUrl.isValidVideoUrl urlParses u = false ->
       run = ([], Err FfmpegUrl.invalidUrlDuration)) /\
    (forall r, snd run = Ok r ->
       FfmpegUrl.isValidVideoUrl urlParses u = true /\
       exists d, ffprobe resolved = Ok (Some d) /\
                 JSNumber.falsy d = false /\
                 r = JSNumber.Math_floor (PrimFloat.mul d JSNumber.thousand) /\
                 forall q,
                   JSNumber.exact (PrimFloat.mul d JSNumber.thousand) = Some q ->
                   exists ms, r = JSNumber.Integer ms /\
                              (inject_Z ms <= q)%Q /\ (q < inject_Z (ms + 1))%Q) /\
    (FfmpegUrl.isValidVideoUrl urlParses u = true ->
     forall d, ffprobe resolved = Ok (Some d) -> JSNumber.falsy d = true ->
       snd run = Err FfmpegUrl.noDurationMessage).
Proof.
  intros urlParses httpGet ffprobe u resolved run. subst resolved run.
  unfold FfmpegUrl.getVideoDuration.
  destruct (FfmpegUrl.isValidVideoUrl urlParses u) eqn:Hvalid; cbn [negb].
  2:{ split; [reflexivity |]. split; [discriminate | discriminate]. }
  destruct (FfmpegUrl.resolveVideoUrl httpGet u) as [requests resolved].
  cbn [fst snd].
  split; [discriminate |]. split.
  - intros r H.
    destruct (ffprobe resolved) as [[d|]|e]; try discriminate.
    destruct (JSNumber.falsy d) eqn:Hz; [discriminate |].
    assert (Hr : r = JSNumber.Math_floor (PrimFloat.mul d JSNumber.thousand))
      by congruence.
    clear H. split; [reflexivity |].
    exists d. split; [reflexivity |]. split; [exact Hz |].
    split; [exact Hr |]. intros q Hq. rewrite Hr.
    now apply Math_floor_bounds.
  - intros _ d Hd Hzero. rewrite Hd. now rewrite Hzero.
Qed.

Lemma getVideoDuration_result_witness :
  FfmpegUrl.isValidVideoUrl (fun _ => true) demoUrl = true /\
  exists d,
    (fun _ : string => Ok (Some DemoNumbers.durationSeconds)) demoUrl = Ok (Some d) /\
    JSNumber.falsy d = false /\
    JSNumber.Integer 1000 = JSNumber.Math_floor (PrimFloat.mul d JSNumber.thousand) /\
    forall q,
      JSNumber.exact (PrimFloat.mul d JSNumber.thousand) = Some q ->
      exists ms, JSNumber.Integer 1000 = JSNumber.Integer ms /\
                 (inject_Z ms <= q)%Q /\ (q < inject_Z (ms + 1))%Q.
Proof.
  apply (proj1 (proj2 (getVideoDuration_result (fun _ => true) demoHttpGet
                         (fun _ => Ok (Some DemoNumbers.durationSeconds)) demoUrl))
           (JSNumber.Integer 1000)).
  vm_compute. reflexivity.
Defined.

Lemma includes_inner (x w y s : string) :
  JSString.includes (x ++ w ++ y) s = true -> JSString.includes w s = true.
Proof.
  intros H. destruct (includes_split _ _ H) as (a & b & ->).
  replace (a ++ (x ++ w ++ y) ++ b) with ((a ++ x) ++ w ++ (y ++ b))
    by (rewrite !append_assoc; reflexivity).
  apply includes_app.
Qed.

(** X12. An ffprobe error whose message contains 404, or contains the words
    not found in any letter case, is reported with the file-not-found text,
    whatever else the message says; this includes every message with moov
    atom not found, which therefore never gets the MOOV-atom text. *)
Theorem probeErrorMessage_not_found_first :
  forall (a w b : string),
    In (JSString.toLowerCase w) ["404"; "not found"; "moov atom not found"] ->
    FfmpegUrl.probeErrorMessage (a ++ w ++ b) = FfmpegUrl.notFoundMessage /\
    FfmpegUrl.probeErrorMessage (a ++ w ++ b) <> FfmpegUrl.moovMessage.
Proof.
  intros a w b Hin.
  assert (Hfound : JSString.includes "404" (JSString.toLowerCase (a ++ w ++ b))
                   || JSString.includes "not found" (JSString.toLowerCase (a ++ w ++ b))
                   = true).
  { pose proof (includes_lower w a b) as Hw.
    destruct Hin as [H | [H | [H | []]]]; rewrite <- H in Hw.
    - now rewrite Hw.
    - rewrite Hw. apply orb_true_r.
    - rewrite (includes_inner "moov atom " "not found" "" _ Hw). apply orb_true_r. }
  assert (Heq : FfmpegUrl.probeErrorMessage (a ++ w ++ b) = FfmpegUrl.notFoundMessage).
  { unfold FfmpegUrl.probeErrorMessage. cbv beta zeta. now rewrite Hfound. }
  split; [exact Heq |]. rewrite Heq. discriminate.
Qed.

Lemma probeErrorMessage_not_found_first_witness :
  FfmpegUrl.probeErrorMessage ("[mov,mp4] " ++ "Moov Atom Not Found" ++ "")
  = FfmpegUrl.notFoundMessage.
Proof.
  apply probeErrorMessage_not_found_first. simpl. right. right. now left.
Defined.

(* ================================================================== *)
(** ** Processing history *)

Section HistoryFacts.

Import ProcessingHistory.

Lemma SMap_set_In {V} (m : JSString.Map V) (k : string) (v : V) :
  In (k, v) (JSString.Map_set m k v).
Proof.
  induction m as [|[k0 v0] m IH]; simpl; [now left |].
  destruct (String.eqb k0 k) eqn:Hk.
  - apply String.eqb_eq in Hk. subst. now left.
  - now right.
Qed.

Lemma SMap_set_keeps {V} (m : JSString.Map V) (k k1 : string) (v v1 : V) :
  k1 <> k -> In (k1, v1) m -> In (k1, v1) (JSString.Map_set m k v).
Proof.
  intros Hne. induction m as [|[k0 v0] m IH]; simpl; [intros [] |].
  intros [Heq | Hin].
  - injection Heq as -> ->.
    destruct (String.eqb k1 k) eqn:Hk; [| now left].
    apply String.eqb_eq in Hk. contradiction.
  - destruct (String.eqb k0 k); right; auto.
Qed.

Lemma SMap_set_set {V} (m : JSString.Map V) (k : string) (v1 v2 : V) :
  JSString.Map_set (JSString.Map_set m k v1) k v2 = JSString.Map_set m k v2.
Proof.
  induction m as [|[k0 v0] m IH]; simpl.
  - now rewrite String.eqb_refl.
  - destruct (String.eqb k0 k) eqn:Hk; simpl; rewrite Hk; [reflexivity |].
    now rewrite IH.
Qed.

Lemma SMap_set_length {V} (m : JSString.Map V) (k : string) (v : V) :
  (List.length m <= List.length (JSString.Map_set m k v) <= S (List.length m))%nat.
Proof.
  induction m as [|[k0 v0] m IH]; simpl; [lia |].
  destruct (String.eqb k0 k); simpl; lia.
Qed.

(** *** Record ids *)

Lemma digit_chars (P : ascii -> bool) (d : Z) :
  allChars P "0123456789abcdef" = true -> allChars P (JS.digit d) = true.
Proof.
  intros H. cbn [allChars] in H.
  repeat (apply andb_true_iff in H; let Hc := fresh "Hc" in destruct H as [Hc H]).
  destruct d as [|p|p]; cbn [JS.digit allChars]; rewrite ?andb_true_r;
    try assumption.
  do 4 (destruct p as [p|p|]; cbn [allChars]; rewrite ?andb_true_r; try assumption).
Qed.

Lemma Number_toString_chars (P : ascii -> bool) (radix n : Z) :
  allChars P "0123456789abcdef-" = true ->
  allChars P (JS.Number_toString radix n) = true.
Proof.
  intros H.
  assert (Hd : allChars P "0123456789abcdef" = true /\ P "-"%char = true).
  { change "0123456789abcdef-" with ("0123456789abcdef" ++ "-") in H.
    rewrite allChars_append in H. apply andb_true_iff in H.
    destruct H as [H1 H2]. split; [exact H1 |].
    cbn [allChars] in H2. now rewrite andb_true_r in H2. }
  destruct Hd as [Hdig Hminus].
  assert (Hrd : forall fuel m, allChars P (JS.radix_digits radix fuel m) = true).
  { induction fuel as [|fuel IH]; intros m; cbn [JS.radix_digits]; [reflexivity |].
    destruct (m <? radix); [now apply digit_chars |].
    now rewrite allChars_append, IH, digit_chars. }
  unfold JS.Number_toString. destruct (n <? 0); [| apply Hrd].
  rewrite allChars_append, Hrd. cbn [allChars]. now rewrite Hminus.
Qed.

Lemma key_split (a b d1 d2 : string) :
  allChars notUnderscore d1 = true -> allChars notUnderscore d2 = true ->
  a ++ "_" ++ d1 = b ++ "_" ++ d2 -> a = b /\ d1 = d2.
Proof.
  intros H1 H2. revert b. induction a as [|c a IH]; intros [|c' b] Heq;
    cbn [append] in Heq.
  - injection Heq as ->. now split.
  - injection Heq as <- ->. exfalso.
    rewrite allChars_append in H1. cbn [allChars] in H1.
    apply andb_true_iff in H1. destruct H1 as [_ H1]. discriminate.
  - injection Heq as -> <-. exfalso.
    rewrite allChars_append in H2. cbn [allChars] in H2.
    apply andb_true_iff in H2. destruct H2 as [_ H2]. discriminate.
  - injection Heq as <- Heq. destruct (IH b Heq) as [-> ->]. now split.
Qed.

(** Record ids are read back uniquely: the URL is everything before the last
    underscore. *)
Lemma recordId_url (u u' : string) (n n' : Z) :
  recordId u n = recordId u' n' ->
  u = u' /\ JS.Number_toString 10 n = JS.Number_toString 10 n'.
Proof.
  unfold recordId. apply key_split; apply Number_toString_chars; reflexivity.
Qed.

Lemma recordId_inj (u u' : string) (n n' : Z) :
  0 <= n -> 0 <= n' -> recordId u n = recordId u' n' -> u = u' /\ n = n'.
Proof.
  intros Hn Hn' H. destruct (recordId_url _ _ _ _ H) as [-> Hs].
  split; [reflexivity |].
  destruct (Number_toString_decimal n Hn) as [_ H1].
  destruct (Number_toString_decimal n' Hn') as [_ H2].
  rewrite Hs in H1. congruence.
Qed.

Lemma save_other_url (now date : Z) (url url' : string) (tss : list Z) (h : History) :
  wellKeyed h -> url <> url' ->
  getProcessingHistory url' (saveProcessingRecord now date url tss h)
  = getProcessingHistory url' h.
Proof.
  intros Hwk Hne. unfold getProcessingHistory, saveProcessingRecord, JSString.Map_values.
  assert (Hno : String.eqb url url' = false) by now apply String.eqb_neq.
  induction Hwk as [|[k0 r0] h [n0 Hk0] _ IH]; cbn [JSString.Map_set].
  - cbn. now rewrite Hno.
  - cbn [fst snd] in Hk0.
    destruct (String.eqb k0 (recordId url now)) eqn:Hk; cbn [map filter snd].
    + apply String.eqb_eq in Hk. rewrite Hk0 in Hk.
      destruct (recordId_url _ _ _ _ Hk) as [Hu _].
      cbn beta iota delta [rec_videoUrl]. rewrite Hu, Hno. reflexivity.
    + rewrite IH. reflexivity.
Qed.

Lemma save_wellKeyed (now date : Z) (url : string) (tss : list Z) (h : History) :
  wellKeyed h -> wellKeyed (saveProcessingRecord now date url tss h).
Proof.
  intros Hwk. unfold saveProcessingRecord.
  induction Hwk as [|[k0 r0] h Hk0 Hrest IH]; cbn [JSString.Map_set].
  - constructor; [| constructor]. now exists now.
  - destruct (String.eqb k0 (recordId url now)) eqn:Hk.
    + apply String.eqb_eq in Hk. constructor.
      * exists now. cbn [fst snd rec_videoUrl]. exact Hk.
      * exact Hrest.
    + constructor; [exact Hk0 | exact IH].
Qed.

Lemma save_contains (now date : Z) (url : string) (tss : list Z) (h : History) :
  In {| rec_timestamp := date; rec_videoUrl := url; rec_timestamps := tss |}
     (getProcessingHistory url (saveProcessingRecord now date url tss h)).
Proof.
  unfold getProcessingHistory. apply filter_In. split.
  - unfold JSString.Map_values. apply in_map_iff.
    exists (recordId url now,
            {| rec_timestamp := date; rec_videoUrl := url; rec_timestamps := tss |}).
    split; [reflexivity | apply SMap_set_In].
  - apply String.eqb_refl.
Qed.

End HistoryFacts.

(** X13. Save, then query: after [saveProcessingRecord] for a URL,
    [getProcessingHistory] for that URL contains the saved record; a query
    only returns records of the URL asked for; after [clearHistory] every
    query is empty. *)
Theorem history_save_then_query :
  forall (now date : Z) (url : string) (tss : list Z) (h : History),
    In {| rec_timestamp := date; rec_videoUrl := url; rec_timestamps := tss |}
       (ProcessingHistory.getProcessingHistory url
          (ProcessingHistory.saveProcessingRecord now date url tss h)) /\
    (forall url', Forall (fun r => rec_videoUrl r = url')
                    (ProcessingHistory.getProcessingHistory url' h)) /\
    (forall url', ProcessingHistory.getProcessingHistory url'
                    (ProcessingHistory.clearHistory h) = []).
Proof.
  intros now date url tss h. split; [| split].
  - apply save_contains.
  - intros url'. apply Forall_forall. intros r Hr.
    unfold ProcessingHistory.getProcessingHistory in Hr.
    apply filter_In in Hr. destruct Hr as [_ Hr]. now apply String.eqb_eq in Hr.
  - reflexivity.
Qed.

(** X14. Histories are kept apart by URL: in a history built by
    [saveProcessingRecord] (every key is the record id of its record), saving
    a record for one URL leaves the history of every other URL unchanged, and
    the history stays of that form. *)
Theorem history_isolated_by_url :
  forall (now date : Z) (url url' : string) (tss : list Z) (h : History),
    wellKeyed h -> url <> url' ->
    ProcessingHistory.getProcessingHistory url'
      (ProcessingHistory.saveProcessingRecord now date url tss h)
    = ProcessingHistory.getProcessingHistory url' h /\
    wellKeyed (ProcessingHistory.saveProcessingRecord now date url tss h).
Proof.
  intros now date url url' tss h Hwk Hne. split.
  - now apply save_other_url.
  - now apply save_wellKeyed.
Qed.

Lemma history_isolated_by_url_witness :
  ProcessingHistory.getProcessingHistory "b.mp4"
    (ProcessingHistory.saveProcessingRecord 7 7 "a.mp4" [1000]
       (ProcessingHistory.saveProcessingRecord 5 5 "b.mp4" [2000] []))
  = ProcessingHistory.getProcessingHistory "b.mp4"
      (ProcessingHistory.saveProcessingRecord 5 5 "b.mp4" [2000] []).
Proof.
  refine (proj1 (history_isolated_by_url 7 7 "a.mp4" "b.mp4" [1000] _ _ _)).
  - apply save_wellKeyed. constructor.
  - discriminate.
Defined.

(** X15. The record id is the URL and the millisecond clock: two saves for the
    same URL within the same millisecond leave only the later record (the
    earlier one is overwritten), while saves at different clock values are
    both kept. *)
Theorem history_same_millisecond_overwrites :
  (forall (now d1 d2 : Z) (url : string) (t1 t2 : list Z) (h : History),
     ProcessingHistory.saveProcessingRecord now d2 url t2
       (ProcessingHistory.saveProcessingRecord now d1 url t1 h)
     = ProcessingHistory.saveProcessingRecord now d2 url t2 h) /\
  (forall (n1 n2 d1 d2 : Z) (url : string) (t1 t2 : list Z) (h : History),
     0 <= n1 -> 0 <= n2 -> n1 <> n2 ->
     let h' := ProcessingHistory.saveProcessingRecord n2 d2 url t2
                 (ProcessingHistory.saveProcessingRecord n1 d1 url t1 h) in
     In {| rec_timestamp := d1; rec_videoUrl := url; rec_timestamps := t1 |}
        (ProcessingHistory.getProcessingHistory url h') /\
     In {| rec_timestamp := d2; rec_videoUrl := url; rec_timestamps := t2 |}
        (ProcessingHistory.getProcessingHistory url h')).
Proof.
  split.
  - intros. unfold ProcessingHistory.saveProcessingRecord. apply SMap_set_set.
  - intros n1 n2 d1 d2 url t1 t2 h Hn1 Hn2 Hne h'. subst h'. split.
    + unfold ProcessingHistory.getProcessingHistory. apply filter_In.
      split; [| apply String.eqb_refl].
      unfold JSString.Map_values. apply in_map_iff.
      exists (ProcessingHistory.recordId url n1,
              {| rec_timestamp := d1; rec_videoUrl := url; rec_timestamps := t1 |}).
      split; [reflexivity |].
      unfold ProcessingHistory.saveProcessingRecord at 1.
      apply SMap_set_keeps; [| apply SMap_set_In].
      intros Heq. apply recordId_inj in Heq; try assumption.
      destruct Heq as [_ Heq]. contradiction.
    + apply save_contains.
Qed.

Lemma history_same_millisecond_overwrites_witness :
  In {| rec_timestamp := 5; rec_videoUrl := "a.mp4"; rec_timestamps := [1000] |}
     (ProcessingHistory.getProcessingHistory "a.mp4"
        (ProcessingHistory.saveProcessingRecord 6 6 "a.mp4" [2000]
           (ProcessingHistory.saveProcessingRecord 5 5 "a.mp4" [1000] []))).
Proof.
  refine (proj1 (proj2 history_same_millisecond_overwrites 5 6 5 6 "a.mp4"
                   [1000] [2000] [] _ _ _)); lia.
Defined.

(* ================================================================== *)
(** ** The services *)

Section ServiceFacts.

Import VideoProcessorService.

Lemma filter_exceeding (d : Z) (tss : list Z) :
  (Exists (fun ts => d < ts) tss ->
   (0 <? List.length (filter (fun ts => (d <? ts)%Z) tss))%nat = true) /\
  (Forall (fun ts => ts <= d) tss ->
   (0 <? List.length (filter (fun ts => (d <? ts)%Z) tss))%nat = false).
Proof.
  split.
  - intros Hex. apply Exists_exists in Hex. destruct Hex as (ts & Hin & Hlt).
    assert (Hf : In ts (filter (fun ts => d <? ts) tss)).
    { apply filter_In. split; [exact Hin | now apply Z.ltb_lt]. }
    destruct (filter (fun ts => d <? ts) tss); [contradiction | reflexivity].
  - intros Hall.
    replace (filter (fun ts => d <? ts) tss) with (@nil Z); [reflexivity |].
    symmetry. induction Hall as [|ts tss Hts _ IH]; simpl; [reflexivity |].
    replace (d <? ts) with false by (symmetry; apply Z.ltb_ge; exact Hts).
    exact IH.
Qed.

Lemma processTimestamp_trace (E : Env) (url : string) (ts : Z) :
  fst (processTimestamp E url ts) =
  if isValidVideoUrl E url && isOk (ensureTempDir E)
  then [FfmpegUtil.seekCall E url ts]
  else [].
Proof.
  rewrite <- extractFrame_trace.
  unfold processTimestamp, legacyExtractColorFromFrame,
    VideoProcessorRepository.lift, bind, trace.
  destruct (FfmpegUtil.extractFrame E url ts) as [t [fb|e]]; simpl; [| reflexivity].
  destruct (ColorUtil.extractDominantColor E fb); simpl; now rewrite app_nil_r.
Qed.

Lemma processTimestamp_Ok (E : Env) (url : string) (ts : Z) (r : ColorResultDto) :
  snd (processTimestamp E url ts) = Ok r -> dto_timestamp r = ts.
Proof.
  unfold processTimestamp.
  destruct (legacyExtractColorFromFrame E url ts) as [t [c|e]]; simpl;
    [| discriminate].
  intros H. injection H as <-. reflexivity.
Qed.

Lemma all_started_trace_length (E : Env) (url : string) (tss : list Z) :
  isValidVideoUrl E url = true ->
  ensureTempDir E = Ok tt ->
  List.length (fst (all_started (map (processTimestamp E url) tss)))
  = List.length tss.
Proof.
  intros Hurl Hdir. unfold all_started. cbn [fst].
  induction tss as [|ts tss IH]; simpl; [reflexivity |].
  rewrite length_app, IH, processTimestamp_trace, Hurl, Hdir. reflexivity.
Qed.

(** Each per-timestamp computation starts at most one decoder process. *)
Lemma all_started_trace_le (E : Env) (url : string) (tss : list Z) :
  (List.length (fst (all_started (map (processTimestamp E url) tss)))
   <= List.length tss)%nat.
Proof.
  unfold all_started. cbn [fst].
  induction tss as [|ts tss IH]; simpl; [lia |].
  rewrite length_app, processTimestamp_trace.
  destruct (isValidVideoUrl E url && isOk (ensureTempDir E)); simpl; lia.
Qed.

Lemma all_started_Ok (E : Env) (url : string) (tss : list Z)
    (rs : list ColorResultDto) :
  snd (all_started (map (processTimestamp E url) tss)) = Ok rs ->
  map dto_timestamp rs = tss.
Proof.
  unfold all_started. cbn [snd]. rewrite map_map. intros H.
  apply Promise_all_Ok in H.
  induction H as [|ts r tss rs Hr _ IH]; simpl; [reflexivity |].
  now rewrite (processTimestamp_Ok _ _ _ _ Hr), IH.
Qed.

Lemma sorted_results (l : list ColorResult) :
  StronglySorted (keyLe timestamp) l ->
  StronglySorted (keyLe dto_timestamp) (map resultOf l).
Proof.
  induction 1 as [|x l _ IH Hx]; simpl; constructor; [exact IH |].
  apply Forall_map. exact Hx.
Qed.

End ServiceFacts.

(** X16. Timestamp validation, in both services: when some requested
    timestamp is greater than the probed duration the request is refused
    before any decoder process is started and the history is unchanged; when
    moreover the duration and the timestamps are non-negative integers up to
    2^53 - 1 (which a double holds exactly and which are printed with all
    their digits), the message lists the offending timestamps in request
    order.  Timestamps up to and including the duration pass, and the batch
    service then runs the repository's batch method. *)
Theorem timestamp_validation :
  forall (S : Services) (url : string) (tss : list Z) (h : History) (d : Z),
    svc_getVideoDuration S url = Ok d ->
    (Exists (fun ts => d < ts) tss ->
       (runTrace (VideoProcessorService.extractColors S url tss h) = [] /\
        runHistory (VideoProcessorService.extractColors S url tss h) = h /\
        isOk (runOutcome (VideoProcessorService.extractColors S url tss h)) = false) /\
       (runTrace (VideoProcessorService.legacyExtractColors S url tss h) = [] /\
        runHistory (VideoProcessorService.legacyExtractColors S url tss h) = h /\
        isOk (runOutcome (VideoProcessorService.legacyExtractColors S url tss h))
        = false) /\
       (safeInteger d -> Forall safeInteger tss ->
        runOutcome (VideoProcessorService.extractColors S url tss h)
        = Err (VideoProcessorService.exceedMessage
                 (filter (fun ts => d <? ts) tss) d) /\
        runOutcome (VideoProcessorService.legacyExtractColors S url tss h)
        = Err (VideoProcessorService.exceedMessage
                 (filter (fun ts => d <? ts) tss) d))) /\
    (Forall (fun ts => ts <= d) tss ->
       runTrace (VideoProcessorService.extractColors S url tss h)
       = trace (VideoProcessorRepository.extractColorsFromFrames (svc_env S) url tss) /\
       forall invalid,
         runOutcome (VideoProcessorService.extractColors S url tss h)
         <> Err (VideoProcessorService.exceedMessage invalid d)).
Proof.
  intros S url tss h d Hd.
  destruct (filter_exceeding d tss) as [Hsome Hnone].
  unfold VideoProcessorService.extractColors, VideoProcessorService.legacyExtractColors.
  rewrite Hd. cbv zeta. split.
  - intros Hex. rewrite (Hsome Hex).
    unfold runTrace, runOutcome, runHistory. cbn [fst snd isOk].
    repeat split.
  - intros Hall. rewrite (Hnone Hall).
    destruct (VideoProcessorRepository.extractColorsFromFrames (svc_env S) url tss)
      as [t [rs|e]]; unfold runTrace, runOutcome, trace; cbn [fst snd].
    + split; [reflexivity | discriminate].
    + split; [reflexivity |]. intros invalid.
      unfold VideoProcessorService.wrapFailure,
        VideoProcessorService.exceedMessage. cbn [append]. discriminate.
Qed.

Lemma timestamp_validation_witness :
  runOutcome (VideoProcessorService.extractColors (demoServices stream4 10000) demoUrl
                [1000; 10001; 10000; 20000] [])
  = Err "Timestamps 10001, 20000 exceed video duration of 10000ms".
Proof.
  refine (proj1 (proj2 (proj2 (proj1 (timestamp_validation
                                        (demoServices stream4 10000) demoUrl
                                        [1000; 10001; 10000; 20000] [] 10000 eq_refl)
                                 _)) _ _)).
  - apply Exists_cons_tl. apply Exists_cons_hd. lia.
  - unfold safeInteger. lia.
  - repeat constructor; unfold safeInteger; lia.
Defined.

(** X17. The per-timestamp service, for timestamps within the duration:
    it starts at most one decoder process per requested timestamp, exactly
    one when the URL is accepted and the scratch directory of [extractFrame]
    can be prepared; when it succeeds it returns exactly one result per
    requested timestamp, in request order and with duplicates kept, and saves
    one record with the requested timestamps. *)
Theorem legacy_service_keeps_request_order :
  forall (S : Services) (url : string) (tss : list Z) (h : History) (d : Z),
    svc_getVideoDuration S url = Ok d ->
    Forall (fun ts => ts <= d) tss ->
    (List.length (runTrace (VideoProcessorService.legacyExtractColors S url tss h))
     <= List.length tss)%nat /\
    (isValidVideoUrl (svc_env S) url = true ->
     ensureTempDir (svc_env S) = Ok tt ->
     List.length (runTrace (VideoProcessorService.legacyExtractColors S url tss h))
     = List.length tss) /\
    (forall resp,
       runOutcome (VideoProcessorService.legacyExtractColors S url tss h) = Ok resp ->
       map dto_timestamp (legacy_results resp) = tss /\
       runHistory (VideoProcessorService.legacyExtractColors S url tss h)
       = ProcessingHistory.saveProcessingRecord (svc_now S) (svc_date S) url tss h).
Proof.
  intros S url tss h d Hd Hall.
  destruct (filter_exceeding d tss) as [_ Hnone].
  unfold VideoProcessorService.legacyExtractColors.
  rewrite Hd. cbv zeta. rewrite (Hnone Hall).
  pose proof (all_started_trace_length (svc_env S) url tss) as Hlen.
  pose proof (all_started_trace_le (svc_env S) url tss) as Hle.
  pose proof (all_started_Ok (svc_env S) url tss) as Hok.
  destruct (VideoProcessorService.all_started _) as [t [rs|e]];
    unfold runTrace, runOutcome, runHistory; cbn [fst snd] in *.
  - split; [exact Hle |]. split; [exact Hlen |]. intros resp H. injection H as <-.
    split; [now apply Hok | reflexivity].
  - split; [exact Hle |]. split; [exact Hlen | discriminate].
Qed.

Lemma legacy_service_keeps_request_order_witness :
  map dto_timestamp
    [ {| dto_timestamp := 5000; dto_color := "#110000" |};
      {| dto_timestamp := 1000; dto_color := "#110000" |};
      {| dto_timestamp := 1000; dto_color := "#110000" |} ]
  = [5000; 1000; 1000] /\
  runHistory (VideoProcessorService.legacyExtractColors
                (demoServices (jpeg x11) 10000) demoUrl [5000; 1000; 1000] [])
  = ProcessingHistory.saveProcessingRecord 1700000000000 1700000000000 demoUrl
      [5000; 1000; 1000] [].
Proof.
  refine (proj2 (proj2 (legacy_service_keeps_request_order
                          (demoServices (jpeg x11) 10000)
                          demoUrl [5000; 1000; 1000] [] 10000 eq_refl _))
            {| legacy_videoUrl := demoUrl;
               legacy_results :=
                 [ {| dto_timestamp := 5000; dto_color := "#110000" |};
                   {| dto_timestamp := 1000; dto_color := "#110000" |};
                   {| dto_timestamp := 1000; dto_color := "#110000" |} ] |} _).
  - repeat constructor; lia.
  - vm_compute. reflexivity.
Defined.

(** X18. The batch service records a request exactly when it succeeds: a
    failed request leaves the history unchanged; a successful one saves the
    full list of requested timestamps (however many results came back), and
    its results are in ascending timestamp order, with one timing entry per
    result whose total is the sum of the decoder and palette durations. *)
Theorem batch_service_records_successes :
  forall (S : Services) (url : string) (tss : list Z) (h : History),
    (forall e,
       runOutcome (VideoProcessorService.extractColors S url tss h) = Err e ->
       runHistory (VideoProcessorService.extractColors S url tss h) = h) /\
    (forall resp,
       runOutcome (VideoProcessorService.extractColors S url tss h) = Ok resp ->
       runHistory (VideoProcessorService.extractColors S url tss h)
       = ProcessingHistory.saveProcessingRecord (svc_now S) (svc_date S) url tss h /\
       StronglySorted (keyLe dto_timestamp) (resp_results resp) /\
       map tm_timestamp (resp_perTimestamp resp)
       = map dto_timestamp (resp_results resp) /\
       Forall (fun t => tm_totalMs t = tm_ffmpegMs t + tm_vibrantMs t)
         (resp_perTimestamp resp)).
Proof.
  intros S url tss h.
  pose proof (extractColorsFromFrames_ascending (svc_env S) url tss) as Hsorted.
  unfold VideoProcessorService.extractColors.
  destruct (svc_getVideoDuration S url) as [d|e0];
    unfold runOutcome, runHistory; cbn [fst snd].
  2:{ split; [reflexivity | discriminate]. }
  cbv zeta. destruct (0 <? _)%nat; cbn [fst snd].
  { split; [reflexivity | discriminate]. }
  unfold outcome in Hsorted.
  destruct (VideoProcessorRepository.extractColorsFromFrames (svc_env S) url tss)
    as [t [rs|e1]]; cbn [fst snd] in *.
  - split; [discriminate |]. intros resp H. injection H as <-. cbn.
    split; [reflexivity |].
    split; [apply sorted_results, Hsorted; reflexivity |].
    split; [rewrite !map_map; reflexivity |].
    apply Forall_map. apply Forall_forall. intros r _. reflexivity.
  - split; [reflexivity | discriminate].
Qed.

Lemma batch_service_records_successes_witness :
  runHistory (VideoProcessorService.extractColors (demoServices stream4 10000)
                demoUrl [1000; 10001] [])
  = [].
Proof.
  refine (proj1 (batch_service_records_successes (demoServices stream4 10000)
                   demoUrl [1000; 10001] []) _ _).
  vm_compute. reflexivity.
Defined.

(** X19. For a request of one timestamp the per-timestamp service and the
    batch service start the same decoder processes, at most one: after the
    same validation against the probed duration, each of them reaches
    [extractFrame] once. *)
Theorem services_agree_on_singleton :
  forall (S : Services) (url : string) (ts : Z) (h : History),
    runTrace (VideoProcessorService.legacyExtractColors S url [ts] h)
    = runTrace (VideoProcessorService.extractColors S url [ts] h) /\
    (List.length (runTrace (VideoProcessorService.extractColors S url [ts] h))
     <= 1)%nat.
Proof.
  intros S url ts h.
  pose proof (processTimestamp_trace (svc_env S) url ts) as Hlegacy.
  pose proof (extractColorsFromFrames_trace (svc_env S) url [ts]) as Hbatch.
  rewrite extractMultipleFrames_trace in Hbatch.
  unfold VideoProcessorService.extractColors, VideoProcessorService.legacyExtractColors.
  destruct (svc_getVideoDuration S url) as [d|e0];
    unfold runTrace; cbn [fst snd]; [| split; [reflexivity | simpl; lia]].
  cbv zeta. destruct (0 <? _)%nat; cbn [fst snd]; [split; [reflexivity | simpl; lia] |].
  unfold VideoProcessorService.all_started, trace in *. cbn [map List.concat fst] in *.
  rewrite app_nil_r.
  destruct (VideoProcessorService.processTimestamp (svc_env S) url ts) as [t1 r1].
  destruct (VideoProcessorRepository.extractColorsFromFrames (svc_env S) url [ts])
    as [t2 r2].
  cbn [fst snd map JS.Promise_all] in *. subst t1 t2.
  assert (Hsame :
            (if isValidVideoUrl (svc_env S) url && isOk (ensureTempDir (svc_env S))
             then [FfmpegUtil.seekCall (svc_env S) url ts] else [])
            = (if isValidVideoUrl (svc_env S) url
               then if isOk (ensureTempDir (svc_env S))
                    then [FfmpegUtil.seekCall (svc_env S) url ts] else []
               else [])).
  { destruct (isValidVideoUrl (svc_env S) url); reflexivity. }
  rewrite Hsame.
  assert (Hle : (List.length
                   (if isValidVideoUrl (svc_env S) url
                    then if isOk (ensureTempDir (svc_env S))
                         then [FfmpegUtil.seekCall (svc_env S) url ts] else []
                    else []) <= 1)%nat).
  { destruct (isValidVideoUrl (svc_env S) url), (isOk (ensureTempDir (svc_env S)));
      simpl; lia. }
  destruct r1 as [c1|e1], r2 as [rs|e2];
    cbn [fst snd]; split; try reflexivity; exact Hle.
Qed.
